(** * tsnet: listener registry, flow dispatch and server lifecycle

    A shallow embedding of the parts of package [tsnet] that own the
    listener registry ([Server.listeners]), the flow-interception
    callbacks, the one-time initialisation ([Server.Start]), the loopback
    gateway ([Server.Loopback]) and the blocking [Server.Up]; of its
    smaller operations ([Dial], [LocalClient], [APIClient],
    [TailscaleIPs], [getTSNetDir], [printAuthURLLoop]); and of the
    command [tailscale configure synology] of package [cli].

    Go values are modelled as follows.
    - [string] is Rocq's [string]; an [error] is the text of its message,
      [option error] being Go's possibly-nil [error].
    - [netip.Addr] is an inductive type with the zero value, IPv4 and
      IPv6 (with zone) addresses; struct equality is Rocq's equality.
    - [map[listenKey]*listener] is a [gmap listenKey ptr]; a [*listener]
      is an address [ptr] into a heap of listener objects, so that the
      pointer comparison in [listener.Close] and the channel shared by all
      holders of one listener are modelled with their aliasing.
    - A run-time panic is the [Panic] case of [result].
    - What the operating system, the network and the other packages
      answer is an argument of the operation (an environment record);
      what an operation does to them is returned as a list of effects.

    Error messages built with the verbs %q and %v are rendered without
    quoting; no statement below depends on the text of a message other
    than through equality of the returned values. *)

From Stdlib Require Import ZArith NArith String Ascii List Lia Bool.
From stdpp Require Import base decidable countable strings list gmap fin_maps
  pretty.

Local Open Scope string_scope.

(** ** Go preliminaries *)

Definition error := string.

Inductive result (A : Type) : Type :=
| Ok (a : A)
| Panic (msg : string).
Arguments Ok {A} a.
Arguments Panic {A} msg.

#[global] Instance result_ret : MRet result := fun A a => Ok a.

#[global] Instance result_bind : MBind result := fun A B k r =>
  match r with
  | Ok a => k a
  | Panic m => Panic m
  end.

(** [fmt.Errorf(prefix + "%w", err)]: the message of the wrapped error. *)
Definition wrapf (pre : string) (err : error) : error := pre ++ err.

(** ** netip *)

Module netip.

(** [netip.Addr]: the zero value (no address), an IPv4 address, or an
    IPv6 address with its zone.  IPv4-mapped IPv6 addresses are [Addr6]
    values, as in Go ([Is4] is false and [Is6] true for them). *)
Inductive Addr : Type :=
| AddrZero
| Addr4 (a : N)
| Addr6 (a : N) (zone : string).

Definition Is4 (ip : Addr) : bool :=
  match ip with Addr4 _ => true | _ => false end.

Definition Is6 (ip : Addr) : bool :=
  match ip with Addr6 _ _ => true | _ => false end.

Record AddrPort : Type := mkAddrPort { ap_addr : Addr; ap_port : N }.

#[global] Instance Addr_eq_dec : EqDecision Addr.
Proof. solve_decision. Defined.

#[global] Instance Addr_countable : Countable Addr.
Proof.
  refine (inj_countable'
    (fun ip => match ip with
               | AddrZero => inl ()
               | Addr4 a => inr (inl a)
               | Addr6 a z => inr (inr (a, z))
               end)
    (fun x => match x with
              | inl _ => AddrZero
              | inr (inl a) => Addr4 a
              | inr (inr (a, z)) => Addr6 a z
              end) _).
  by intros [].
Defined.

End netip.

(** ** The listener registry *)

(** [type listenKey struct { network string; host netip.Addr; port uint16 }] *)
Record listenKey : Type := mkListenKey {
  network : string;
  host : netip.Addr;   (* or the zero value for unspecified *)
  port : N
}.

#[global] Instance listenKey_eq_dec : EqDecision listenKey.
Proof. solve_decision. Defined.

#[global] Instance listenKey_countable : Countable listenKey.
Proof.
  refine (inj_countable'
    (fun k => (network k, host k, port k))
    (fun t => mkListenKey t.1.1 t.1.2 t.2) _).
  by intros [].
Defined.

(** A [*listener]: the address of a listener object. *)
Definition ptr := nat.

(** The state of an unbuffered [chan net.Conn]. *)
Inductive chan : Type :=
| ChanOpen
| ChanClosed.

(** [type listener struct { s *Server; key listenKey; addr string; conn chan net.Conn }]
    ([s] is the one server of the model). *)
Record listener : Type := mkListener {
  key : listenKey;
  addr : string;
  conn : chan
}.

(** [networkForFamily]: [Panic] is the source's [panic("unexpected")]. *)
Definition networkForFamily (netBase : string) (is6 : bool) : result string :=
  if String.eqb netBase "tcp" then
    (if is6 then Ok "tcp6" else Ok "tcp4")
  else if String.eqb netBase "udp" then
    (if is6 then Ok "udp6" else Ok "udp4")
  else Panic "unexpected".

Section Resolve.

Variable listeners : gmap listenKey ptr.

(** The inner loop of [listenerForDstAddr]: the networks are tried in
    order for one address [a]; the first registered key returns. *)
Fixpoint probe_nets (nets : list string) (a : netip.Addr) (p : N)
  : option ptr :=
  match nets with
  | [] => None
  | net :: rest =>
      match listeners !! mkListenKey net a p with
      | Some ln => Some ln
      | None => probe_nets rest a p
      end
  end.

(** The outer loop: the addresses are tried in order. *)
Fixpoint probe_addrs (addrs : list netip.Addr) (nets : list string) (p : N)
  : option ptr :=
  match addrs with
  | [] => None
  | a :: rest =>
      match probe_nets nets a p with
      | Some ln => Some ln
      | None => probe_addrs rest nets p
      end
  end.

(** [Server.listenerForDstAddr].  The array literal
    [[2]netip.Addr{0: dst.Addr()}] holds the destination address and,
    at index 1, the zero [netip.Addr].  [None] is [(nil, false)]. *)
Definition listenerForDstAddr (netBase : string) (dst : netip.AddrPort)
  : result (option ptr) :=
  fam ← networkForFamily netBase (netip.Is6 (netip.ap_addr dst));
  Ok (probe_addrs [netip.ap_addr dst; netip.AddrZero]
                  [fam; netBase] (netip.ap_port dst)).

(** The resolution order in the words of the specification: the four
    keys, most specific first. *)
Definition family_of (netBase : string) (ip : netip.Addr) : string :=
  netBase ++ (if netip.Is6 ip then "6" else "4").

Definition resolve_keys (netBase : string) (dst : netip.AddrPort)
  : list listenKey :=
  let ip := netip.ap_addr dst in
  let p := netip.ap_port dst in
  [ mkListenKey (family_of netBase ip) ip p;
    mkListenKey netBase ip p;
    mkListenKey (family_of netBase ip) netip.AddrZero p;
    mkListenKey netBase netip.AddrZero p ].

(** The first registered key of a list of keys. *)
Fixpoint first_hit (ks : list listenKey) : option ptr :=
  match ks with
  | [] => None
  | k :: rest =>
      match listeners !! k with
      | Some ln => Some ln
      | None => first_hit rest
      end
  end.

End Resolve.

Definition is_base (netBase : string) : Prop :=
  netBase = "tcp" \/ netBase = "udp".

(** ** The server *)

(** [Server.Store]: the in-memory store ([*mem.Store]) or any other
    [ipn.StateStore]. *)
Inductive StateStore : Type :=
| MemStore
| OtherStore.

(** A [net.Listener] as [Loopback] uses it: [Addr()] may be nil. *)
Record netListener : Type := mkNetListener { Addr : option string }.

(** The fields of [Server] that the modelled operations read or write.
    [initOnce] is the done flag of the [sync.Once].  [heap] is not a field
    of the Go struct: it holds the listener objects allocated by [Listen],
    which [listeners] and the application's handles point into. *)
Record Server : Type := mkServer {
  Dir : string;
  Store : option StateStore;
  Ephemeral : bool;
  initOnce : bool;
  initErr : option error;
  proxyCred : string;
  localAPICred : string;
  loopbackListener : option netListener;
  listeners : gmap listenKey ptr;
  heap : gmap ptr listener
}.

Definition set_init (s : Server) (done : bool) (e : option error) : Server :=
  mkServer (Dir s) (Store s) (Ephemeral s) done e (proxyCred s)
           (localAPICred s) (loopbackListener s) (listeners s) (heap s).

Definition set_proxyCred (s : Server) (c : string) : Server :=
  mkServer (Dir s) (Store s) (Ephemeral s) (initOnce s) (initErr s) c
           (localAPICred s) (loopbackListener s) (listeners s) (heap s).

Definition set_localAPICred (s : Server) (c : string) : Server :=
  mkServer (Dir s) (Store s) (Ephemeral s) (initOnce s) (initErr s)
           (proxyCred s) c (loopbackListener s) (listeners s) (heap s).

Definition set_loopbackListener (s : Server) (l : option netListener) : Server :=
  mkServer (Dir s) (Store s) (Ephemeral s) (initOnce s) (initErr s)
           (proxyCred s) (localAPICred s) l (listeners s) (heap s).

Definition set_registry (s : Server) (m : gmap listenKey ptr)
    (h : gmap ptr listener) : Server :=
  mkServer (Dir s) (Store s) (Ephemeral s) (initOnce s) (initErr s)
           (proxyCred s) (localAPICred s) (loopbackListener s) m h.

(** A server as the caller constructs it: only the exported fields set. *)
Definition newServer (dir : string) (st : option StateStore) (eph : bool)
    : Server :=
  mkServer dir st eph false None "" "" None ∅ ∅.

(** ** Observable effects

    What an operation does to the outside world, in the order it does
    it. *)

(** The release actions [start] registers in its [closeOnErrorPool]. *)
Inductive closer : Type :=
| close_logbuffer          (* closePool.add(s.logbuffer) *)
| shutdown_logtail         (* closePool.addFunc(... s.logtail.Shutdown ...) *)
| close_linkMon            (* closePool.add(s.linkMon) *)
| close_dialer             (* closePool.add(s.dialer) *)
| shutdown_lb              (* closePool.addFunc(... s.lb.Shutdown() ...) *)
| close_localAPIListener.  (* closePool.add(s.localAPIListener) *)

#[global] Instance closer_eq_dec : EqDecision closer.
Proof. solve_decision. Defined.

Inductive effect : Type :=
| EvInit                   (* the body of doInit ran *)
| EvRelease (c : closer)   (* a release action was called *)
| EvRandRead               (* crand.Read filled a credential buffer *)
| EvNetListen              (* net.Listen opened a socket *)
| EvServeHTTP              (* the localapi HTTP server goroutine started *)
| EvServeSOCKS.            (* the SOCKS5 server goroutine started *)

#[global] Instance effect_eq_dec : EqDecision effect.
Proof. solve_decision. Defined.

(** ** closeOnErrorPool *)

(** [type closeOnErrorPool []func()] *)
Definition closeOnErrorPool := list closer.

(** [func (p *closeOnErrorPool) add(c io.Closer)] *)
Definition add (p : closeOnErrorPool) (c : closer) : closeOnErrorPool :=
  (p ++ [c])%list.

(** [func (p *closeOnErrorPool) addFunc(fn func())] *)
Definition addFunc (p : closeOnErrorPool) (fn : closer) : closeOnErrorPool :=
  (p ++ [fn])%list.

(** Calling one release action. *)
Definition call_closer (log : list effect) (closeFn : closer) : list effect :=
  (log ++ [EvRelease closeFn])%list.

(** [func (p closeOnErrorPool) closeAllIfError(errp *error)]: the effects
    of [for _, closeFn := range p { closeFn() }] when [*errp != nil]. *)
Definition closeAllIfError (p : closeOnErrorPool) (errp : option error)
    : list effect :=
  match errp with
  | Some _ => fold_left call_closer p []
  | None => []
  end.

(** ** Server.start *)

(** The calls of [start] into other packages that can fail. *)
Inductive extcall : Type :=
| os_Executable
| os_UserConfigDir
| call_getTSNetDir
| os_MkdirAll
| os_Stat
| logpolicy_ConfigFromFile
| Config_Save
| Config_Validate
| filch_New
| monitor_New
| wgengine_NewUserspaceEngine
| netstack_Create
| store_New
| ipnlocal_NewLocalBackend
| netstack_Start
| lb_Start.

(** What the outside world answers during one run of [start]. *)
Record StartEnv : Type := mkStartEnv {
  fails : extcall -> option error;   (* the error of a call, or nil *)
  tsnetDir : string;                 (* the directory getTSNetDir selects *)
  stat_IsDir : bool;                 (* fi.IsDir() of s.rootPath *)
  cfg_IsNotExist : bool;             (* os.IsNotExist of ConfigFromFile's error *)
  GetInternals_ok : bool
}.

(** [start] threads its pool through every step and returns at the first
    error: a state-and-error monad over the pool. *)
Definition startM (A : Type) : Type :=
  closeOnErrorPool -> (error + A) * closeOnErrorPool.

#[global] Instance startM_ret : MRet startM := fun A a p => (inr a, p).

#[global] Instance startM_bind : MBind startM := fun A B k m p =>
  match m p with
  | (inl e, p') => (inl e, p')
  | (inr a, p') => k a p'
  end.

Definition fail {A : Type} (e : error) : startM A := fun p => (inl e, p).

Definition when (b : bool) (m : startM unit) : startM unit :=
  if b then m else mret tt.

(** [if err != nil { return wrap(err) }] for the outcome of a call. *)
Definition check (o : option error) (wrap : error -> error) : startM unit :=
  match o with
  | Some e => fail (wrap e)
  | None => mret tt
  end.

Definition pool_add (c : closer) : startM unit := fun p => (inr tt, add p c).
Definition pool_addFunc (c : closer) : startM unit :=
  fun p => (inr tt, addFunc p c).

Definition is_MemStore (st : option StateStore) : bool :=
  match st with Some MemStore => true | _ => false end.

(** The body of [Server.start], statement by statement.  The fields it
    assigns (hostname, rootPath, logid, Store and the handles of the
    subsystems) are read by no operation modelled here and are left
    out; the paths only appear in error messages. *)
Definition start_body (s : Server) (env : StartEnv) : startM unit :=
  let ext := fails env in
  let rootPath := if String.eqb (Dir s) "" then tsnetDir env else Dir s in
  let cfgPath := rootPath ++ "/tailscaled.log.conf" in
  check (ext os_Executable) id;;
  when (is_MemStore (Store s) && negb (Ephemeral s))
    (fail "in-memory store is only supported for Ephemeral nodes");;
  when (String.eqb (Dir s) "")
    (check (ext os_UserConfigDir) id;;
     check (ext call_getTSNetDir) id;;
     check (ext os_MkdirAll) id);;
  check (ext os_Stat) id;;
  when (negb (stat_IsDir env)) (fail (rootPath ++ " is not a directory"));;
  match ext logpolicy_ConfigFromFile with
  | Some err =>
      if cfg_IsNotExist env then
        check (ext Config_Save)
              (wrapf ("logpolicy.Config.Save for " ++ cfgPath ++ ": "))
      else fail (wrapf ("logpolicy.LoadConfig for " ++ cfgPath ++ ": ") err)
  | None => mret tt
  end;;
  check (ext Config_Validate)
        (wrapf ("logpolicy.Config.Validate for " ++ cfgPath ++ ": "));;
  check (ext filch_New) (wrapf "error creating filch: ");;
  pool_add close_logbuffer;;
  pool_addFunc shutdown_logtail;;
  check (ext monitor_New) id;;
  pool_add close_linkMon;;
  check (ext wgengine_NewUserspaceEngine) id;;
  pool_add close_dialer;;
  when (negb (GetInternals_ok env))
    (fail "engine is not a wgengine.InternalsGetter");;
  check (ext netstack_Create) (wrapf "netstack.Create: ");;
  when (bool_decide (Store s = None)) (check (ext store_New) id);;
  check (ext ipnlocal_NewLocalBackend) (wrapf "NewLocalBackend: ");;
  check (ext netstack_Start) (wrapf "failed to start netstack: ");;
  pool_addFunc shutdown_lb;;
  check (ext lb_Start) (wrapf "starting backend: ");;
  pool_add close_localAPIListener;;
  mret tt.

Definition reterr_of {A : Type} (r : error + A) : option error :=
  match r with
  | inl e => Some e
  | inr _ => None
  end.

(** [Server.start]: the returned error and the release actions run on the
    way out.

    [defer closePool.closeAllIfError(&reterr)] is executed while
    [closePool] is still nil.  [closeAllIfError] has a value receiver, and
    a defer statement evaluates the receiver of the deferred method call
    when it is executed, not when the function returns: the deferred call
    ranges over that copy of the slice header, whereas [add] and
    [addFunc] later assign new slices to the variable through its
    address.  [&reterr] is a pointer, so the error is read at return. *)
Definition start (s : Server) (env : StartEnv) : option error * list effect :=
  let closePool : closeOnErrorPool := [] in
  let deferred_receiver := closePool in
  let '(r, _) := start_body s env closePool in
  let reterr := reterr_of r in
  (reterr, closeAllIfError deferred_receiver reterr).

(** The pool as [start] leaves it: the release actions registered by the
    steps that succeeded. *)
Definition registered (s : Server) (env : StartEnv) : closeOnErrorPool :=
  (start_body s env []).2.

(** [Server.doInit] ([shutdownCtx] and [shutdownCancel] are not
    modelled). *)
Definition doInit (s : Server) (env : StartEnv) : Server * list effect :=
  let '(err, released) := start s env in
  match err with
  | Some e => (set_init s (initOnce s) (Some (wrapf "tsnet: " e)),
               EvInit :: released)
  | None => (s, EvInit :: released)
  end.

(** [Server.Start]: [s.initOnce.Do(s.doInit); return s.initErr].  [Do]
    calls [doInit] only if no call of [Do] has completed before, and
    marks the [Once] done when [doInit] returns. *)
Definition Start (s : Server) (env : StartEnv)
    : Server * option error * list effect :=
  if initOnce s then (s, initErr s, [])
  else
    let '(s', evs) := doInit s env in
    let s'' := set_init s' true (initErr s') in
    (s'', initErr s'', evs).

(** A sequence of [Start] calls, one environment per call: the errors
    returned, in call order, and all effects. *)
Fixpoint Starts (s : Server) (envs : list StartEnv)
    : Server * list (option error) * list effect :=
  match envs with
  | [] => (s, [], [])
  | env :: rest =>
      let '(s1, e, evs) := Start s env in
      let '(s2, es, evs') := Starts s1 rest in
      (s2, e :: es, (evs ++ evs')%list)
  end.

(** ** Flow interception *)

(** The handlers the callbacks return: the method value [ln.handle], or
    the closure that passes the packet connection on to [ln.handle]. *)
Inductive handler : Type :=
| TCPHandler (ln : ptr)
| UDPHandler (ln : ptr).

(** [Server.getTCPHandlerForFlow]: the result is [(handler, intercept)],
    [None] being the nil handler. *)
Definition getTCPHandlerForFlow (s : Server) (src dst : netip.AddrPort)
    : result (option handler * bool) :=
  r ← listenerForDstAddr (listeners s) "tcp" dst;
  match r with
  | None => Ok (None, true)   (* don't handle, don't forward to localhost *)
  | Some ln => Ok (Some (TCPHandler ln), true)
  end.

(** [Server.getUDPHandlerForFlow] *)
Definition getUDPHandlerForFlow (s : Server) (src dst : netip.AddrPort)
    : result (option handler * bool) :=
  r ← listenerForDstAddr (listeners s) "udp" dst;
  match r with
  | None => Ok (None, true)   (* don't handle, don't forward to localhost *)
  | Some ln => Ok (Some (UDPHandler ln), true)
  end.

(** ** Listen *)

(** A Go result pair [(v, err)]: the value, or the non-nil error. *)
Inductive errorOr (A : Type) : Type :=
| Val (a : A)
| Err (e : error).
Arguments Val {A} a.
Arguments Err {A} e.

(** The functions of packages [net] and [net/netip] that [Listen] calls;
    their code is not part of this repository. *)
Class Net : Type := {
  SplitHostPort : string -> errorOr (string * string);
  LookupPort : string -> string -> errorOr Z;
  ParseAddr : string -> errorOr netip.Addr
}.

Definition MaxUint16 : Z := 65535.

(** The conversion [uint16(port)] of an [int]. *)
Definition uint16 (port : Z) : N := Z.to_N (port mod 65536).

(** [strings.HasSuffix] *)
Definition HasSuffix (s suffix : string) : bool :=
  let n := String.length s in
  let k := String.length suffix in
  (k <=? n)%nat && String.eqb (substring (n - k) k s) suffix.

Definition supported_networks : list string :=
  ["" ; "tcp" ; "tcp4" ; "tcp6" ; "udp" ; "udp4" ; "udp6"].

Section Listen.

Context {net : Net}.

(** The host part of [Listen]: the zero address for an empty host, else
    an IP literal of the family the network name asks for. *)
Definition bindHost (network host : string) : errorOr netip.Addr :=
  if String.eqb host "" then Val netip.AddrZero
  else
    match ParseAddr host with
    | Err _ =>
        Err ("invalid Listen addr " ++ host
             ++ "; host part must be empty or IP literal")
    | Val bindHostOrZero =>
        if HasSuffix network "4" && negb (netip.Is4 bindHostOrZero) then
          Err ("invalid non-IPv4 addr " ++ host ++ " for network " ++ network)
        else if HasSuffix network "6" && negb (netip.Is6 bindHostOrZero) then
          Err ("invalid non-IPv6 addr " ++ host ++ " for network " ++ network)
        else Val bindHostOrZero
    end.

(** The part of [Listen] before [s.Start()], with the key it leads to:
    the checks of the network name, of the port and of the host.  The
    key depends on the arguments only, so that building it before
    [Start] rather than after changes nothing. *)
Definition listen_key (network addr : string) : errorOr listenKey :=
  if negb (bool_decide (network ∈ supported_networks)) then
    Err "unsupported network type"
  else
    match SplitHostPort addr with
    | Err err => Err (wrapf "tsnet: " err)
    | Val (host, portStr) =>
        match LookupPort network portStr with
        | Err err => Err (wrapf "invalid port: " err)
        | Val port =>
            if (port <? 0)%Z || (port >? MaxUint16)%Z then
              Err "invalid port: %!w(<nil>)"
            else
              match bindHost network host with
              | Err e => Err e
              | Val bindHostOrZero =>
                  Val (mkListenKey network bindHostOrZero (uint16 port))
              end
        end
    end.

(** [Server.Listen].  The new listener object is allocated at an
    address not yet in use; [mak.Set] creates the map if it is nil and
    stores the entry. *)
Definition Listen (s : Server) (env : StartEnv) (network addr : string)
    : Server * errorOr ptr * list effect :=
  match listen_key network addr with
  | Err e => (s, Err e, [])
  | Val key =>
      let '(s1, err, evs) := Start s env in
      match err with
      | Some e => (s1, Err e, evs)
      | None =>
          match listeners s1 !! key with
          | Some _ =>
              (s1,
               Err ("tsnet: listener already open for "
                    ++ network ++ ", " ++ addr),
               evs)
          | None =>
              let ln := fresh (dom (heap s1)) in
              (set_registry s1 (<[key := ln]> (listeners s1))
                            (<[ln := mkListener key addr ChanOpen]> (heap s1)),
               Val ln, evs)
          end
      end
  end.

End Listen.

(** ** The listener *)

(** [close(ch)] *)
Definition close_chan (ch : chan) : result chan :=
  match ch with
  | ChanOpen => Ok ChanClosed
  | ChanClosed => Panic "close of closed channel"
  end.

Definition set_conn (o : listener) (ch : chan) : listener :=
  mkListener (key o) (addr o) ch.

(** [listener.Close]: the new state and the returned error.  [v == ln]
    compares pointers. *)
Definition listener_Close (s : Server) (ln : ptr)
    : result (Server * option error) :=
  match heap s !! ln with
  | None => Panic "invalid memory address or nil pointer dereference"
  | Some o =>
      match listeners s !! key o with
      | Some v =>
          if decide (v = ln) then
            ch ← close_chan (conn o);
            Ok (set_registry s (delete (key o) (listeners s))
                             (<[ln := set_conn o ch]> (heap s)),
                None)
          else Ok (s, None)
      | None => Ok (s, None)
      end
  end.

(** A [net.Conn], by identity. *)
Definition netConn := nat.

(** [c, ok := <-ch] on an unbuffered channel: [offer] is the value of a
    sender that is ready, if any.  [None]: the receive blocks. *)
Definition chan_recv (ch : chan) (offer : option netConn)
    : option (option netConn * bool) :=
  match ch with
  | ChanClosed => Some (None, false)
  | ChanOpen =>
      match offer with
      | Some c => Some (Some c, true)
      | None => None
      end
  end.

Definition ErrClosed : error := "use of closed network connection".

(** [listener.Accept]: [None] while it blocks. *)
Definition Accept (s : Server) (ln : ptr) (offer : option netConn)
    : result (option (option netConn * option error)) :=
  match heap s !! ln with
  | None => Panic "invalid memory address or nil pointer dereference"
  | Some o =>
      match chan_recv (conn o) offer with
      | None => Ok None
      | Some (c, ok) =>
          if ok then Ok (Some (c, None))
          else Ok (Some (None, Some (wrapf "tsnet: " ErrClosed)))
      end
  end.

(** [time.Second], a [time.Duration] in nanoseconds. *)
Definition time_Second : Z := 1000000000.

(** How [listener.handle] ends: the connection was received by an
    [Accept], or [c.Close()] was called; with the time spent in the
    select. *)
Inductive handled : Type :=
| Delivered (elapsed : Z)
| Dropped (elapsed : Z).

Definition elapsed (h : handled) : Z :=
  match h with
  | Delivered t => t
  | Dropped t => t
  end.

(** The select of [listener.handle] on a channel in state [ch], for a
    timer of duration [d].  [accept_after] is the time after which an
    [Accept] is ready to receive, if ever (zero or less: one is waiting
    already).  A send on a closed channel
    proceeds at once by panicking.  When the receiver and the timer are
    ready at the same instant the runtime picks either case: [pick_send]
    is its choice. *)
Definition select_send (ch : chan) (d : Z) (accept_after : option Z)
    (pick_send : bool) : result handled :=
  match ch with
  | ChanClosed => Panic "send on closed channel"
  | ChanOpen =>
      match accept_after with
      | None => Ok (Dropped d)
      | Some t =>
          if (t <? d)%Z then Ok (Delivered (Z.max 0 t))
          else if (t =? d)%Z && pick_send then Ok (Delivered (Z.max 0 t))
          else Ok (Dropped d)
      end
  end.

(** [listener.handle]: [t := time.NewTimer(time.Second)], then the
    select between [ln.conn <- c] and [<-t.C]. *)
Definition handle (s : Server) (ln : ptr) (c : netConn)
    (accept_after : option Z) (pick_send : bool) : result handled :=
  match heap s !! ln with
  | None => Panic "invalid memory address or nil pointer dereference"
  | Some o => select_send (conn o) time_Second accept_after pick_send
  end.

(** ** Up *)

(** [ipn.State] *)
Inductive ipnState : Type :=
| NoState
| InUseOtherUser
| NeedsLogin
| NeedsMachineAuth
| Stopped
| Starting
| Running.

#[global] Instance ipnState_eq_dec : EqDecision ipnState.
Proof. solve_decision. Defined.

(** The fields of [ipn.Notify] that [Up] reads; both are pointers. *)
Record Notify : Type := mkNotify {
  ErrMessage : option string;
  State : option ipnState
}.

(** [ipnstate.Status], as far as [Up] looks at it. *)
Record Status : Type := mkStatus { TailscaleIPs : list netip.Addr }.

(** What the backend answers during one call of [Up]: the outcome of
    [WatchIPNBus], the results of the successive [watcher.Next()] calls
    that have returned so far (a cancelled context makes [Next] return an
    error), and the result of [lc.Status]. *)
Record UpEnv : Type := mkUpEnv {
  watch : option error;
  nexts : list (errorOr Notify);
  status : errorOr Status
}.

(** The [for] loop of [Up]: [None] while it is blocked in
    [watcher.Next()], else the returned pair. *)
Fixpoint Up_loop (ns : list (errorOr Notify)) (st : errorOr Status)
    : option (option Status * option error) :=
  match ns with
  | [] => None
  | Err err :: _ => Some (None, Some (wrapf "tsnet.Up: " err))
  | Val n :: rest =>
      match ErrMessage n with
      | Some msg => Some (None, Some ("tsnet.Up: backend: " ++ msg))
      | None =>
          match State n with
          | Some Running =>
              match st with
              | Err err => Some (None, Some (wrapf "tsnet.Up: " err))
              | Val status =>
                  if (length (TailscaleIPs status) =? 0)%nat then
                    Some (None, Some "tsnet.Up: running, but no ip")
                  else Some (Some status, None)
              end
          | _ => Up_loop rest st
          end
      end
  end.

(** [Server.Up]; [LocalClient] calls [Start]. *)
Definition Up (s : Server) (senv : StartEnv) (env : UpEnv)
    : Server * option (option Status * option error) * list effect :=
  let '(s1, err, evs) := Start s senv in
  match err with
  | Some e => (s1, Some (None, Some (wrapf "tsnet.Up: " e)), evs)
  | None =>
      match watch env with
      | Some e => (s1, Some (None, Some (wrapf "tsnet.Up: " e)), evs)
      | None => (s1, Up_loop (nexts env) (status env), evs)
      end
  end.

(** ** Loopback *)

Module hex.

Definition hextable : string := "0123456789abcdef".

Definition digit (n : N) : ascii :=
  match String.get (N.to_nat n) hextable with
  | Some c => c
  | None => "0"%char
  end.

(** [hex.EncodeToString]: two digits per byte, high nibble first. *)
Fixpoint EncodeToString (src : list Byte.byte) : string :=
  match src with
  | [] => ""
  | v :: rest =>
      String (digit (N.shiftr (Byte.to_N v) 4))
        (String (digit (N.land (Byte.to_N v) 15))
           (EncodeToString rest))
  end.

Definition is_hexdigit (c : ascii) : bool :=
  bool_decide (c ∈ list_ascii_of_string hextable).

End hex.

(** A [[16]byte] read from a source of bytes. *)
Definition array16 (src : nat -> Byte.byte) : list Byte.byte :=
  map src (seq 0 16).

(** What the outside world answers during one call of [Loopback]: the
    two [crand.Read] calls (the bytes written into the buffer, or the
    error) and [net.Listen]. *)
Record LoopbackEnv : Type := mkLoopbackEnv {
  rand1 : errorOr (nat -> Byte.byte);
  rand2 : errorOr (nat -> Byte.byte);
  net_Listen : errorOr netListener
}.

(** The result tuple [(addr, proxyCred, localAPICred, err)]. *)
Definition loopbackResult : Type := string * string * string * option error.

(** The last lines of [Loopback]. *)
Definition Loopback_return (s : Server) (ln : netListener) (evs : list effect)
    : result (Server * loopbackResult * list effect) :=
  match Addr ln with
  | None => Panic "loopbackListener has no Addr"
  | Some lbAddr =>
      Ok (s, (lbAddr, proxyCred s, localAPICred s, None), evs)
  end.

(** [Server.Loopback] *)
Definition Loopback (s : Server) (senv : StartEnv) (env : LoopbackEnv)
    : result (Server * loopbackResult * list effect) :=
  let '(s0, err, evs) := Start s senv in
  match err with
  | Some e => Ok (s0, ("", "", "", Some e), evs)
  | None =>
      match loopbackListener s0 with
      | Some ln => Loopback_return s0 ln evs
      | None =>
          match rand1 env with
          | Err e => Ok (s0, ("", "", "", Some e), evs)
          | Val b1 =>
              let s1 := set_proxyCred s0 (hex.EncodeToString (array16 b1)) in
              let evs1 := (evs ++ [EvRandRead])%list in
              match rand2 env with
              | Err e => Ok (s1, ("", "", "", Some e), evs1)
              | Val b2 =>
                  let s2 :=
                    set_localAPICred s1 (hex.EncodeToString (array16 b2)) in
                  let evs2 := (evs1 ++ [EvRandRead])%list in
                  match net_Listen env with
                  | Err e => Ok (s2, ("", "", "", Some e), evs2)
                  | Val ln =>
                      let s3 := set_loopbackListener s2 (Some ln) in
                      Loopback_return s3 ln
                        (evs2 ++ [EvNetListen; EvServeHTTP; EvServeSOCKS])%list
                  end
              end
          end
      end
  end.

(** ** Server.Close *)

(** [Server.Close], as far as the registry goes (the shutdown of the
    subsystems is not modelled).  The loop
    [for _, ln := range s.listeners { ln.Close() }] runs with [s.mu]
    held, and [ln.Close()] locks [ln.s.mu], the same mutex, which is not
    reentrant: with a listener registered the call never returns, and no
    channel is closed.  [None]: the call blocks for ever. *)
Definition Server_Close (s : Server) : option (Server * option error) :=
  if decide (listeners s = ∅) then Some (set_registry s ∅ (heap s), None)
  else None.

(** ** Reachable states *)

Section Steps.

Context {net : Net}.

(** One operation of the application on the server or on one of its
    listeners. *)
Inductive step : Server -> Server -> Prop :=
| step_Start s env s' e evs :
    Start s env = (s', e, evs) -> step s s'
| step_Listen s env network addr s' r evs :
    Listen s env network addr = (s', r, evs) -> step s s'
| step_Close s ln s' e :
    listener_Close s ln = Ok (s', e) -> step s s'
| step_Loopback s senv env s' r evs :
    Loopback s senv env = Ok (s', r, evs) -> step s s'
| step_Up s senv env s' r evs :
    Up s senv env = (s', r, evs) -> step s s'
| step_ServerClose s s' e :
    Server_Close s = Some (s', e) -> step s s'.

Definition steps : Server -> Server -> Prop := rtc step.

(** The states a server constructed by the caller can get into. *)
Definition reachable (s : Server) : Prop :=
  exists dir st eph, steps (newServer dir st eph) s.

End Steps.

(** The registry is well formed: the entry of a key points to a listener
    object that has this key and whose channel is open. *)
Definition registry_wf (s : Server) : Prop :=
  forall k ln, listeners s !! k = Some ln ->
    exists o, heap s !! ln = Some o /\ key o = k /\ conn o = ChanOpen.

(** ** Sample inputs *)

#[global] Instance extcall_eq_dec : EqDecision extcall.
Proof. solve_decision. Defined.

(** An outside world in which every call succeeds, except [failing],
    which returns [err]. *)
Definition env_failing (failing : option extcall) (err : error) : StartEnv :=
  mkStartEnv
    (fun c => match failing with
              | Some f => if decide (c = f) then Some err else None
              | None => None
              end)
    "/home/user/.config/tsnet-app" true false true.

(** A flow from 100.64.0.1:40000 to 1.2.3.4:80. *)
Definition flow_src : netip.AddrPort :=
  netip.mkAddrPort (netip.Addr4 1681915905) 40000.
Definition flow_dst : netip.AddrPort :=
  netip.mkAddrPort (netip.Addr4 16909060) 80.

(** A resolver that knows numeric ports and the unspecified host only:
    [":80"] and [":53"] split into an empty host and the port. *)
Definition sampleNet : Net := {|
  SplitHostPort a :=
    if String.eqb a ":80" then Val ("", "80")
    else if String.eqb a ":53" then Val ("", "53")
    else Err ("address " ++ a ++ ": missing port in address");
  LookupPort _ p :=
    if String.eqb p "80" then Val 80%Z
    else if String.eqb p "53" then Val 53%Z
    else Err ("unknown port " ++ p);
  ParseAddr h := Err ("ParseAddr(" ++ h ++ "): unable to parse IP")
|}.

(** The outside world in which every call of [start] succeeds. *)
Definition env_ok : StartEnv := env_failing None "".

(** A new server on which [Listen("tcp", ":80")] has returned; the
    listener is the first object allocated, at address 0. *)
Definition sample_listening : Server :=
  (@Listen sampleNet (newServer "/var/lib/app" None false) env_ok
           "tcp" ":80").1.1.

(** A notification that lets [Up] go on waiting: no error message, and
    no state or a state other than [Running]. *)
Definition quiet (n : Notify) : Prop :=
  ErrMessage n = None /\ State n <> Some Running.

(** The backend goes through NeedsLogin and Starting to Running, with
    the address 100.64.0.2 assigned. *)
Definition sample_up : UpEnv :=
  mkUpEnv None
    [Val (mkNotify None (Some NeedsLogin));
     Val (mkNotify None (Some Starting));
     Val (mkNotify None (Some Running))]
    (Val (mkStatus [netip.Addr4 1681915906])).

(** Both reads of the random source succeed and the socket opens. *)
Definition sample_loopback : LoopbackEnv :=
  mkLoopbackEnv
    (Val (fun i => match Byte.of_nat (i + 160) with
                   | Some b => b
                   | None => Byte.x00
                   end))
    (Val (fun i => match Byte.of_nat (7 * i) with
                   | Some b => b
                   | None => Byte.x00
                   end))
    (Val (mkNetListener (Some "127.0.0.1:43210"))).

(** ** Further operations of the server *)

(** [Server.Dial]: [UserDial] is what [s.dialer.UserDial] answers. *)
Definition Dial (s : Server) (env : StartEnv) (UserDial : errorOr netConn)
    : Server * errorOr netConn * list effect :=
  let '(s1, err, evs) := Start s env in
  match err with
  | Some e => (s1, Err e, evs)
  | None => (s1, UserDial, evs)
  end.

(** [Server.LocalClient]; the client is [s.localClient], without
    content here. *)
Definition LocalClient (s : Server) (env : StartEnv)
    : Server * errorOr unit * list effect :=
  let '(s1, err, evs) := Start s env in
  match err with
  | Some e => (s1, Err e, evs)
  | None => (s1, Val tt, evs)
  end.

(** [Server.APIClient]: [ack] is the package variable
    [tailscale.I_Acknowledge_This_API_Is_Unstable]. *)
Definition APIClient (ack : bool) (s : Server) (env : StartEnv)
    : Server * errorOr unit * list effect :=
  if negb ack then
    (s,
     Err "use of Client without setting I_Acknowledge_This_API_Is_Unstable",
     [])
  else
    let '(s1, err, evs) := Start s env in
    match err with
    | Some e => (s1, Err e, evs)
    | None => (s1, Val tt, evs)
    end.

(** [listener.Addr().Network()] and [listener.Addr().String()] *)
Definition addr_Network (s : Server) (ln : ptr) : result string :=
  match heap s !! ln with
  | None => Panic "invalid memory address or nil pointer dereference"
  | Some o => Ok (network (key o))
  end.

Definition addr_String (s : Server) (ln : ptr) : result string :=
  match heap s !! ln with
  | None => Panic "invalid memory address or nil pointer dereference"
  | Some o => Ok (addr o)
  end.

(** [netip.Prefix] *)
Record Prefix : Type := mkPrefix { prefix_Addr : netip.Addr; prefix_Bits : Z }.

(** One turn of the loop of [TailscaleIPs] over [nm.Addresses]. *)
Definition TailscaleIPs_step (acc : netip.Addr * netip.Addr) (a : Prefix)
    : netip.Addr * netip.Addr :=
  let ip := prefix_Addr a in
  let ip6 := if netip.Is6 ip then ip else acc.2 in
  let ip4 := if netip.Is4 ip then ip else acc.1 in
  (ip4, ip6).

(** [Server.TailscaleIPs] on a started server: [nm] is the
    [*netmap.NetworkMap] that [s.lb.NetMap()] returns, nil while the node
    has none; [nm.Addresses] then dereferences the nil pointer.  The
    result is [(ip4, ip6)]. *)
Definition Server_TailscaleIPs (nm : option (list Prefix))
    : result (netip.Addr * netip.Addr) :=
  match nm with
  | None => Panic "invalid memory address or nil pointer dereference"
  | Some Addresses =>
      Ok (fold_left TailscaleIPs_step Addresses
                    (netip.AddrZero, netip.AddrZero))
  end.

(** ** getTSNetDir *)

(** What [os.Lstat] finds at a path: a directory, something else (with
    the text of its mode), nothing, or another error. *)
Inductive lstatResult : Type :=
| LstatDir
| LstatOther (mode : string)
| LstatNotExist
| LstatError (e : error).

(** The file system as [getTSNetDir] sees it; [Join] is
    [filepath.Join]. *)
Record FSEnv : Type := mkFSEnv {
  Join : string -> string -> string;
  Lstat : string -> lstatResult;
  Rename : string -> string -> option error
}.

Inductive fsEffect : Type :=
| FsRename (oldpath newpath : string)   (* os.Rename was called *)
| FsLogf (msg : string).

(** [getTSNetDir]: the result and what it did. *)
Definition getTSNetDir (fs : FSEnv) (confDir prog : string)
    : errorOr string * list fsEffect :=
  let oldPath := Join fs confDir ("tslib-" ++ prog) in
  let newPath := Join fs confDir ("tsnet-" ++ prog) in
  let migrate :=
    match Rename fs oldPath newPath with
    | Some err => (Err err, [FsRename oldPath newPath])
    | None =>
        (Val newPath,
         [FsRename oldPath newPath;
          FsLogf ("renamed old tsnet state storage directory " ++ oldPath
                  ++ " to " ++ newPath)])
    end in
  match Lstat fs oldPath with
  | LstatNotExist => (Val newPath, [])   (* Common path. *)
  | LstatError err => (Err err, [])
  | LstatOther mode =>
      (Err ("expected old tslib path " ++ oldPath
            ++ " to be a directory; got " ++ mode), [])
  | LstatDir =>
      match Lstat fs newPath with
      | LstatDir => (Val newPath, [])
      | LstatError err => (Err err, [])
      | LstatOther _ => migrate
      | LstatNotExist => migrate
      end
  end.

(** ** printAuthURLLoop *)

(** What one turn of the loop observes: whether [s.shutdownCtx.Err()] is
    non-nil at its start, the state of the backend, the [AuthURL] of its
    status, and whether [s.shutdownCtx.Done()] fires before the five
    seconds of the timer. *)
Record pollObs : Type := mkPollObs {
  ctxErr : bool;
  lbState : ipnState;
  AuthURL : string;
  doneFirst : bool
}.

Inductive logLine : Type :=
| LogStopping (st : ipnState)
| LogAuthURL (url : string).

Definition log_AuthURL (o : pollObs) : list logLine :=
  if String.eqb (AuthURL o) "" then [] else [LogAuthURL (AuthURL o)].

(** [Server.printAuthURLLoop] over the observations of its successive
    turns: whether it has returned, and the lines it logged. *)
Fixpoint printAuthURLLoop (obs : list pollObs) : bool * list logLine :=
  match obs with
  | [] => (false, [])
  | o :: rest =>
      if ctxErr o then (true, [])
      else if negb (bool_decide (lbState o = NeedsLogin)) then
        (true, [LogStopping (lbState o)])
      else if doneFirst o then (true, log_AuthURL o)
      else
        let '(returned, lines) := printAuthURLLoop rest in
        (returned, (log_AuthURL o ++ lines)%list)
  end.

(** A turn after which the loop does not go on. *)
Definition stops (o : pollObs) : bool :=
  ctxErr o || negb (bool_decide (lbState o = NeedsLogin)) || doneFirst o.

(** ** tailscale configure synology *)

Module synology.

(** What [os.Stat] answers. *)
Inductive statResult : Type :=
| StatOk
| StatNotExist
| StatError (e : error).

(** The machine as [runConfigureSynology] sees it.  A failing command
    gives its combined output and its error. *)
Record Env : Type := mkEnv {
  GOOS : string;                       (* runtime.GOOS *)
  distro_Get : string;                 (* distro.Get() *)
  Getuid : Z;                          (* os.Getuid() *)
  USER : string;                       (* os.Getenv("USER") *)
  DistroVersion : string;              (* hostinfo.New().DistroVersion *)
  stat_tun : statResult;               (* os.Stat("/dev/net/tun") *)
  mkdir_devnet : option error;         (* os.MkdirAll("/dev/net", 0755) *)
  mknod : option (string * error);     (* /bin/mknod /dev/net/tun c 10 200 *)
  chmod_devnet : option error;         (* os.Chmod("/dev/net", 0755) *)
  chmod_tun : option error;            (* os.Chmod("/dev/net/tun", 0666) *)
  stat_daemon : statResult;            (* os.Stat(daemonBin) *)
  setcap : option (string * error)     (* /bin/setcap ... daemonBin *)
}.

(** What the command does to the machine; modes are octal in the
    source: 0755 is 493 and 0666 is 438. *)
Inductive action : Type :=
| MkdirAll (path : string) (mode : N)
| Chmod (path : string) (mode : N)
| Exec (name : string) (args : list string)
| Printf (msg : string).

#[global] Instance action_eq_dec : EqDecision action.
Proof. solve_decision. Defined.

Definition distro_Synology : string := "synology".

Definition daemonBin : string :=
  "/var/packages/Tailscale/target/bin/tailscaled".

Definition mknod_tun : action :=
  Exec "/bin/mknod" ["/dev/net/tun"; "c"; "10"; "200"].

Definition setcap_daemon : action :=
  Exec "/bin/setcap" ["cap_net_admin,cap_net_raw+eip"; daemonBin].

(** The command returns at the first error: an error monad that records
    the actions done so far. *)
Definition M (A : Type) : Type := list action -> (error + A) * list action.

#[global] Instance M_ret : MRet M := fun A a log => (inr a, log).

#[global] Instance M_bind : MBind M := fun A B k m log =>
  match m log with
  | (inl e, log') => (inl e, log')
  | (inr a, log') => k a log'
  end.

Definition fail {A : Type} (e : error) : M A := fun log => (inl e, log).

(** An action with the error it may return. *)
Definition act (a : action) (err : option error) : M unit :=
  fun log =>
    match err with
    | Some e => (inl e, (log ++ [a])%list)
    | None => (inr tt, (log ++ [a])%list)
    end.

Definition when (b : bool) (m : M unit) : M unit :=
  if b then m else mret tt.

(** [err] with the text in front that [fmt.Errorf] gives it. *)
Definition wrap_out (pre : string) (r : option (string * error))
    : option error :=
  match r with
  | Some (out, err) => Some (pre ++ err ++ ", " ++ out)
  | None => None
  end.

Definition is_NotExist (r : statResult) : bool :=
  match r with StatNotExist => true | _ => false end.

(** The body of [runConfigureSynology]. *)
Definition body (args : list string) (env : Env) : M unit :=
  when (0 <? length args)%nat (fail "unknown arguments");;
  when (negb (String.eqb (GOOS env) "linux")
        || negb (String.eqb (distro_Get env) distro_Synology))
    (fail "only implemented on Synology");;
  when (negb (Getuid env =? 0)%Z)
    (fail ("must be run as root, not " ++ USER env
           ++ " (" ++ pretty (Getuid env) ++ ")"));;
  let isDSM6 := String.prefix "6." (DistroVersion env) in
  let isDSM7 := String.prefix "7." (DistroVersion env) in
  when (negb isDSM6 && negb isDSM7)
    (fail ("unsupported DSM version " ++ DistroVersion env));;
  when (is_NotExist (stat_tun env))
    (act (MkdirAll "/dev/net" 493)
         (wrapf "creating /dev/net: " <$> mkdir_devnet env);;
     act mknod_tun (wrap_out "creating /dev/net/tun: " (mknod env)));;
  act (Chmod "/dev/net" 493) (chmod_devnet env);;
  act (Chmod "/dev/net/tun" 438) (chmod_tun env);;
  if isDSM6 then
    act (Printf "/dev/net/tun exists and has permissions 0666. Skipping setcap on DSM6.
")
        None
  else
    match stat_daemon env with
    | StatNotExist =>
        fail ("tailscaled binary not found at " ++ daemonBin
              ++ ". Is the Tailscale *.spk package installed?")
    | StatError err => fail err
    | StatOk =>
        act setcap_daemon (wrap_out "setcap: " (setcap env));;
        act (Printf "Done. To restart Tailscale to use the new permissions, run:

  sudo synosystemctl restart pkgctl-Tailscale.service

") None
    end.

(** [runConfigureSynology]: the returned error and the actions done, in
    order. *)
Definition runConfigureSynology (args : list string) (env : Env)
    : option error * list action :=
  let '(r, log) := body args env [] in
  (match r with inl e => Some e | inr _ => None end, log).

(** The conditions under which the command goes to work. *)
Definition permitted (args : list string) (env : Env) : Prop :=
  args = []
  /\ GOOS env = "linux"
  /\ distro_Get env = distro_Synology
  /\ Getuid env = 0%Z
  /\ (String.prefix "6." (DistroVersion env) = true
      \/ String.prefix "7." (DistroVersion env) = true).

End synology.

(** ** Properties of keys and pools *)

(** A key as [Listen] builds it: a supported network name, a port of 16
    bits, and a host that is unspecified or of the family the network
    name asks for. *)
Definition key_ok (k : listenKey) : Prop :=
  network k ∈ supported_networks
  /\ (port k < 65536)%N
  /\ (HasSuffix (network k) "4" = true ->
      host k = netip.AddrZero \/ netip.Is4 (host k) = true)
  /\ (HasSuffix (network k) "6" = true ->
      host k = netip.AddrZero \/ netip.Is6 (host k) = true).

(** The release actions of [start], in the order of their registration. *)
Definition all_closers : closeOnErrorPool :=
  [close_logbuffer; shutdown_logtail; close_linkMon; close_dialer;
   shutdown_lb; close_localAPIListener].

(** Every listener object with an open channel is the registry entry of
    its key. *)
Definition open_registered (s : Server) : Prop :=
  forall ln o, heap s !! ln = Some o -> conn o = ChanOpen ->
    listeners s !! key o = Some ln.

(** The key and the listener object of [sample_listening]. *)
Definition sample_key : listenKey := mkListenKey "tcp" netip.AddrZero 80.
Definition sample_obj : listener := mkListener sample_key ":80" ChanOpen.

(** The second read of the random source fails. *)
Definition loopback_rand2_fails : LoopbackEnv :=
  mkLoopbackEnv (rand1 sample_loopback) (Err "unexpected EOF")
                (net_Listen sample_loopback).

(** A step of [start] that leaves the pool alone: it goes on, or it
    fails, with the pool it was given. *)
Definition pure_step (m : startM unit) : Prop :=
  forall p, m p = (inr tt, p) \/ exists e, m p = (inl e, p).

(** A Synology device with DSM 7 on which the tun device is missing and
    every call succeeds. *)
Definition sample_dsm7 : synology.Env :=
  synology.mkEnv "linux" "synology" 0 "root" "7.2-64570"
    synology.StatNotExist None None None None synology.StatOk None.

(** ** Concurrent callers of Start *)

(** Where a goroutine that has called [Start] is. *)
Inductive caller : Type :=
| Calling                       (* before s.initOnce.Do(s.doInit) *)
| Initialising                  (* inside doInit, holding the Once *)
| Reading                       (* Do has returned; before return s.initErr *)
| Returned (e : option error).

(** A server with the goroutines that call [Start] on it: [running] is
    the goroutine that [Do] has let into [doInit], and [performed] what
    has been done to the outside world so far. *)
Record config : Type := mkConfig {
  srv : Server;
  running : option nat;
  callers : list caller;
  performed : list effect
}.

(** [n] goroutines have called [Start] on [s], none has got anywhere. *)
Definition init_config (s : Server) (n : nat) : config :=
  mkConfig s None (replicate n Calling) [].

(** One step of one goroutine; [envs i] is what the outside world
    answers to goroutine [i] if it is the one to run [doInit].

    [sync.Once.Do] lets a caller into the function when the Once is not
    done and no other caller is inside; a caller that arrives while
    another is inside waits (it has no step) until the Once is done; the
    Once is done when the function returns.  A caller for which the Once
    is done goes on to read [s.initErr]. *)
Inductive cstep (envs : nat -> StartEnv) : config -> config -> Prop :=
| cstep_enter c i :
    callers c !! i = Some Calling ->
    initOnce (srv c) = false ->
    running c = None ->
    cstep envs c
      (mkConfig (srv c) (Some i) (<[i := Initialising]> (callers c))
                (performed c))
| cstep_init c i :
    callers c !! i = Some Initialising ->
    cstep envs c
      (mkConfig
         (set_init (doInit (srv c) (envs i)).1 true
                   (initErr (doInit (srv c) (envs i)).1))
         None (<[i := Reading]> (callers c))
         (performed c ++ (doInit (srv c) (envs i)).2)%list)
| cstep_done c i :
    callers c !! i = Some Calling ->
    initOnce (srv c) = true ->
    cstep envs c
      (mkConfig (srv c) (running c) (<[i := Reading]> (callers c))
                (performed c))
| cstep_return c i :
    callers c !! i = Some Reading ->
    cstep envs c
      (mkConfig (srv c) (running c)
                (<[i := Returned (initErr (srv c))]> (callers c))
                (performed c)).

Definition is_Returned (t : caller) : Prop :=
  match t with Returned _ => True | _ => False end.

(** What holds of every configuration the goroutines can get into from
    [init_config s n]. *)
Definition config_inv (envs : nat -> StartEnv) (s : Server) (c : config)
    : Prop :=
  (forall i, callers c !! i = Some Initialising <-> running c = Some i)
  /\ (forall i, running c = Some i ->
        initOnce (srv c) = false /\ srv c = s /\ performed c = [])
  /\ (forall i t, callers c !! i = Some t ->
        t = Reading \/ is_Returned t -> initOnce (srv c) = true)
  /\ (forall i e, callers c !! i = Some (Returned e) -> e = initErr (srv c))
  /\ ((srv c = s /\ performed c = [])
      \/ (running c = None /\ initOnce s = false
          /\ exists j, (srv c, initErr (srv c), performed c)
                       = Start s (envs j))).

(* ================================================================= *)
(** * Theorems *)

(** ** Resolution order *)

Lemma networkForFamily_base netBase ip :
  is_base netBase ->
  networkForFamily netBase (netip.Is6 ip) = Ok (family_of netBase ip).
Proof.
  intros [-> | ->]; unfold networkForFamily, family_of; simpl;
    by destruct (netip.Is6 ip).
Qed.

Lemma first_hit_None (m : gmap listenKey ptr) ks :
  first_hit m ks = None <-> Forall (fun k => m !! k = None) ks.
Proof.
  induction ks as [| k ks IH]; simpl.
  - split; [constructor | done].
  - destruct (m !! k) as [ln |] eqn:E.
    + split; [done |]. intros H. inversion H; congruence.
    + rewrite IH. split.
      * intros H. by constructor.
      * intros H. by inversion H.
Qed.

Lemma listenerForDstAddr_first_hit (m : gmap listenKey ptr)
    (netBase : string) (dst : netip.AddrPort) :
  is_base netBase ->
  listenerForDstAddr m netBase dst
  = Ok (first_hit m (resolve_keys netBase dst)).
Proof.
  intros Hb. unfold listenerForDstAddr.
  rewrite networkForFamily_base by done. simpl. f_equal.
  repeat (match goal with
          | |- context [m !! ?k] => destruct (m !! k); try reflexivity
          end).
Qed.

Lemma first_hit_Some (m : gmap listenKey ptr) ks ln :
  first_hit m ks = Some ln -> exists k, In k ks /\ m !! k = Some ln.
Proof.
  induction ks as [| k ks IH]; simpl; [done |].
  destruct (m !! k) as [v |] eqn:E.
  - intros [= ->]. eauto.
  - intros H. destruct (IH H) as (k' & Hin & Hk'). eauto.
Qed.

(** C1: for a protocol base "tcp" or "udp", resolution returns the first
    registered key among (family, destination address, port), (base,
    destination address, port), (family, zero address, port), (base, zero
    address, port), in that order, and reports not-found exactly when none
    of the four keys is registered. *)
Theorem listenerForDstAddr_order :
  forall (m : gmap listenKey ptr) (netBase : string) (dst : netip.AddrPort),
    is_base netBase ->
    listenerForDstAddr m netBase dst = Ok (first_hit m (resolve_keys netBase dst))
    /\ (listenerForDstAddr m netBase dst = Ok None <->
        Forall (fun k => m !! k = None) (resolve_keys netBase dst)).
Proof.
  intros m netBase dst Hb.
  rewrite listenerForDstAddr_first_hit by done.
  split; [done |]. split.
  - intros [= H]. by apply first_hit_None.
  - intros H. f_equal. by apply first_hit_None.
Qed.

Lemma listenerForDstAddr_order_witness :
  is_base "tcp" /\
  listenerForDstAddr (<[mkListenKey "tcp" netip.AddrZero 80 := 7%nat]> ∅)
    "tcp" (netip.mkAddrPort (netip.Addr4 16909060) 80)
  = Ok (first_hit (<[mkListenKey "tcp" netip.AddrZero 80 := 7%nat]> ∅)
          (resolve_keys "tcp" (netip.mkAddrPort (netip.Addr4 16909060) 80))).
Proof.
  split; [by left |].
  apply (listenerForDstAddr_order _ "tcp"). by left.
Defined.

(** The example of the specification: with a listener on ("tcp4",
    1.2.3.4, 80) and one on ("tcp", unspecified address, 80), a TCP flow
    to 1.2.3.4:80 resolves to the first; once it is removed, to the
    second. *)
Example resolve_most_specific :
  let k1 := mkListenKey "tcp4" (netip.Addr4 16909060) 80 in
  let k2 := mkListenKey "tcp" netip.AddrZero 80 in
  let m : gmap listenKey ptr := <[k1 := 1%nat]> (<[k2 := 2%nat]> ∅) in
  let dst := netip.mkAddrPort (netip.Addr4 16909060) 80 in
  listenerForDstAddr m "tcp" dst = Ok (Some 1%nat)
  /\ listenerForDstAddr (delete k1 m) "tcp" dst = Ok (Some 2%nat).
Proof. by vm_compute. Qed.

(** ** The flow-interception callbacks *)

(** C2 (as amended): a TCP or UDP flow whose destination resolves to no
    listener gets a nil handler with intercept=true: the flow is neither
    handled nor forwarded by the stack's default policy. *)
Theorem unresolved_flow_is_intercepted :
  forall (s : Server) (src dst : netip.AddrPort),
    (listenerForDstAddr (listeners s) "tcp" dst = Ok None ->
     getTCPHandlerForFlow s src dst = Ok (None, true))
    /\ (listenerForDstAddr (listeners s) "udp" dst = Ok None ->
        getUDPHandlerForFlow s src dst = Ok (None, true)).
Proof.
  intros s src dst.
  unfold getTCPHandlerForFlow, getUDPHandlerForFlow.
  split; intros ->; reflexivity.
Qed.

Lemma unresolved_flow_is_intercepted_witness :
  listenerForDstAddr (listeners (newServer "" None false)) "tcp" flow_dst
    = Ok None
  /\ getTCPHandlerForFlow (newServer "" None false) flow_src flow_dst
     = Ok (None, true).
Proof.
  split; [reflexivity |].
  apply (unresolved_flow_is_intercepted (newServer "" None false)
           flow_src flow_dst).
  reflexivity.
Defined.

(** On a server without listeners the flow to 1.2.3.4:80 resolves to
    nothing, and neither callback answers (nil, false). *)
Lemma unresolved_flow_not_passed_on :
  listenerForDstAddr (listeners (newServer "" None false)) "tcp" flow_dst
    = Ok None
  /\ listenerForDstAddr (listeners (newServer "" None false)) "udp" flow_dst
     = Ok None
  /\ getTCPHandlerForFlow (newServer "" None false) flow_src flow_dst
     <> Ok (None, false)
  /\ getUDPHandlerForFlow (newServer "" None false) flow_src flow_dst
     <> Ok (None, false).
Proof. repeat split; (reflexivity || discriminate). Qed.

(** ** Release actions of start *)



(** The deferred call of [start] ranges over the pool as it was at the
    defer statement: no release action runs, whatever [start] returns. *)
Lemma start_releases_nothing (s : Server) (env : StartEnv) :
  (start s env).2 = [].
Proof.
  unfold start. destruct (start_body s env []) as [r p]. simpl.
  by destruct (reterr_of r).
Qed.




(** ** Start runs the initialisation once *)

Lemma Start_done (s : Server) (env : StartEnv) :
  initOnce s = true -> Start s env = (s, initErr s, []).
Proof. intros H. unfold Start. by rewrite H. Qed.

Lemma Start_marks_done (s : Server) (env : StartEnv) :
  initOnce (Start s env).1.1 = true
  /\ (Start s env).1.2 = initErr (Start s env).1.1.
Proof.
  unfold Start. destruct (initOnce s) eqn:E; [done |].
  destruct (doInit s env) as [s' evs]. done.
Qed.

Lemma Starts_done (s : Server) (envs : list StartEnv) :
  initOnce s = true ->
  Starts s envs = (s, replicate (length envs) (initErr s), []).
Proof.
  intros H. induction envs as [| env envs IH]; [done |].
  simpl. rewrite Start_done by done. by rewrite IH.
Qed.

Lemma doInit_effects (s : Server) (env : StartEnv) :
  (doInit s env).2 = [EvInit].
Proof.
  unfold doInit. pose proof (start_releases_nothing s env) as H.
  destruct (start s env) as [err released]. simpl in H. subst released.
  by destruct err.
Qed.

(** What [Start] does when the initialisation has not run: it runs
    [start], stores the wrapped error of [start] if there is one, marks
    the Once done and returns the stored error. *)
Lemma Start_runs_start (s : Server) (env : StartEnv) :
  initOnce s = false ->
  Start s env
  = (set_init s true
       (match (start s env).1 with
        | Some e => Some (wrapf "tsnet: " e)
        | None => initErr s
        end),
     match (start s env).1 with
     | Some e => Some (wrapf "tsnet: " e)
     | None => initErr s
     end,
     EvInit :: (start s env).2).
Proof.
  intros Hinit. unfold Start, doInit. rewrite Hinit.
  destruct (start s env) as [[e |] released]; reflexivity.
Qed.

Lemma Start_as_doInit (s : Server) (env : StartEnv) :
  initOnce s = false ->
  Start s env
  = (set_init (doInit s env).1 true (initErr (doInit s env).1),
     initErr (doInit s env).1, (doInit s env).2).
Proof.
  intros Hinit. unfold Start. rewrite Hinit.
  by destruct (doInit s env) as [s' evs].
Qed.

Ltac split_inv := split; [| split; [| split; [| split]]].

Lemma config_inv_init (envs : nat -> StartEnv) (s : Server) (n : nat) :
  config_inv envs s (init_config s n).
Proof.
  unfold config_inv, init_config. simpl. split_inv.
  - intros i. split; [| done].
    intros H. apply lookup_replicate in H. by destruct H.
  - done.
  - intros i t H Ht. apply lookup_replicate in H as [-> _].
    by destruct Ht.
  - intros i e H. apply lookup_replicate in H. by destruct H.
  - by left.
Qed.

Lemma cstep_inv (envs : nat -> StartEnv) (s : Server) (c c' : config) :
  cstep envs c c' -> config_inv envs s c -> config_inv envs s c'.
Proof.
  intros Hstep (I1 & I2 & I3 & I4 & I5).
  destruct Hstep as [c i Hi Hinit Hrun | c i Hi | c i Hi Hdone | c i Hi];
    pose proof (lookup_lt_Some _ _ _ Hi) as Hlt;
    unfold config_inv; simpl.
  - (* a caller enters doInit *)
    assert (Hs : srv c = s /\ performed c = []).
    { destruct I5 as [H | (_ & _ & j & Hj)]; [done |].
      destruct (Start_marks_done s (envs j)) as [Hd _].
      rewrite <- Hj in Hd. simpl in Hd. congruence. }
    split_inv.
    + intros k. split.
      * intros H. destruct (decide (k = i)) as [-> | Hne]; [done |].
        rewrite list_lookup_insert_ne in H by done.
        apply I1 in H. congruence.
      * intros [= <-]. by rewrite list_lookup_insert_eq.
    + intros k _. by destruct Hs.
    + intros k t Hk Ht. destruct (decide (i = k)) as [-> | Hne].
      * rewrite list_lookup_insert_eq in Hk by done.
        inversion Hk; subst t. by destruct Ht.
      * rewrite list_lookup_insert_ne in Hk by done. eauto.
    + intros k e Hk. destruct (decide (i = k)) as [-> | Hne].
      * by rewrite list_lookup_insert_eq in Hk.
      * rewrite list_lookup_insert_ne in Hk by done. eauto.
    + by left.
  - (* the caller inside doInit finishes *)
    pose proof (proj1 (I1 i) Hi) as Hrun.
    destruct (I2 i Hrun) as (Hinit & Hs & Hlog).
    split_inv.
    + intros k. split; [| done].
      intros H. destruct (decide (i = k)) as [-> | Hne].
      * by rewrite list_lookup_insert_eq in H.
      * rewrite list_lookup_insert_ne in H by done.
        apply I1 in H. congruence.
    + done.
    + done.
    + intros k e Hk. destruct (decide (i = k)) as [-> | Hne].
      * by rewrite list_lookup_insert_eq in Hk.
      * rewrite list_lookup_insert_ne in Hk by done.
        assert (initOnce (srv c) = true)
          by (eapply I3; [exact Hk | by right]).
        congruence.
    + right. split; [done |]. split; [congruence |].
      exists i. rewrite Hlog, Hs. rewrite Hs in Hinit. simpl.
      by rewrite (Start_as_doInit s (envs i) Hinit).
  - (* a caller finds the Once done *)
    split_inv.
    + intros k. split.
      * intros H. destruct (decide (i = k)) as [-> | Hne].
        -- by rewrite list_lookup_insert_eq in H.
        -- rewrite list_lookup_insert_ne in H by done. by apply I1.
      * intros H. destruct (I2 _ H) as (Hf & _). congruence.
    + exact I2.
    + done.
    + intros k e Hk. destruct (decide (i = k)) as [-> | Hne].
      * by rewrite list_lookup_insert_eq in Hk.
      * rewrite list_lookup_insert_ne in Hk by done. eauto.
    + exact I5.
  - (* a caller returns s.initErr *)
    assert (Hdone : initOnce (srv c) = true)
      by (eapply I3; [exact Hi | by left]).
    split_inv.
    + intros k. split.
      * intros H. destruct (decide (i = k)) as [-> | Hne].
        -- by rewrite list_lookup_insert_eq in H.
        -- rewrite list_lookup_insert_ne in H by done. by apply I1.
      * intros H. destruct (I2 _ H) as (Hf & _). congruence.
    + exact I2.
    + done.
    + intros k e Hk. destruct (decide (i = k)) as [-> | Hne].
      * rewrite list_lookup_insert_eq in Hk by done. congruence.
      * rewrite list_lookup_insert_ne in Hk by done. eauto.
    + exact I5.
Qed.

Lemma csteps_inv (envs : nat -> StartEnv) (s : Server) (n : nat)
    (c : config) :
  rtc (cstep envs) (init_config s n) c -> config_inv envs s c.
Proof.
  intros H. pattern c. eapply rtc_ind_r; [| | exact H].
  - apply config_inv_init.
  - intros c1 c2 _ H12 IH. by eapply cstep_inv.
Qed.

(** While a caller has not returned, some caller can take a step: the
    callers that wait for the Once are never stuck. *)
Lemma config_progress (envs : nat -> StartEnv) (s : Server) (c : config) :
  config_inv envs s c ->
  Forall is_Returned (callers c) \/ exists c', cstep envs c c'.
Proof.
  intros (I1 & I2 & I3 & I4 & I5).
  assert (Hdec : forall t, {is_Returned t} + {~ is_Returned t})
    by (intros []; simpl; auto).
  destruct (Forall_Exists_dec is_Returned (fun t => ~ is_Returned t)
              Hdec (callers c)) as [| Hn]; [by left |].
  right. apply Exists_exists in Hn. destruct Hn as (t & Hin & Ht).
  apply (proj1 (list_elem_of_lookup _ _)) in Hin.
  destruct Hin as [i Hi].
  destruct t as [| | | e]; [| | | by destruct Ht].
  - destruct (initOnce (srv c)) eqn:Hdone.
    + eexists. by eapply cstep_done.
    + destruct (running c) as [j |] eqn:Hrun.
      * eexists. eapply cstep_init. by apply I1.
      * eexists. by eapply cstep_enter.
  - eexists. by eapply cstep_init.
  - eexists. by eapply cstep_return.
Qed.

(** C5: in a sequence of calls of [Start], the calls after the first do
    nothing: the state and the effects are those of the first call, every
    call returns the error the first call returned, which is the stored
    [initErr], and the initialisation body runs once if it had not run
    before and not at all otherwise.  The first call runs [start] and
    returns nil if [start] succeeds and the wrapped error of [start]
    otherwise.  Goroutines that call [Start] concurrently run the
    initialisation at most once, are never stuck, and all return the one
    outcome, which is that of a single call of [Start] by the goroutine
    that ran the initialisation. *)
Theorem Start_once :
  forall (s : Server) (env : StartEnv) (envs : list StartEnv),
    Starts s (env :: envs)
      = ((Start s env).1.1,
         replicate (S (length envs)) (Start s env).1.2,
         (Start s env).2)
    /\ (Start s env).1.2 = initErr (Start s env).1.1
    /\ (forall env', Start (Start s env).1.1 env'
                     = ((Start s env).1.1, (Start s env).1.2, []))
    /\ count_occ effect_eq_dec (Start s env).2 EvInit
       = (if initOnce s then 0 else 1)%nat
    /\ Start s env
       = (if initOnce s then (s, initErr s, [])
          else
            let outcome :=
              match (start s env).1 with
              | Some e => Some (wrapf "tsnet: " e)
              | None => initErr s
              end in
            (set_init s true outcome, outcome, EvInit :: (start s env).2))
    /\ (initOnce s = false -> initErr s = None ->
        (Start s env).1.2 = wrapf "tsnet: " <$> (start s env).1)
    /\ (forall (cenvs : nat -> StartEnv) (n : nat) (c : config),
          rtc (cstep cenvs) (init_config s n) c ->
          count_occ effect_eq_dec (performed c) EvInit <= 1
          /\ (forall i e, callers c !! i = Some (Returned e) ->
                e = initErr (srv c)
                /\ exists j, (srv c, e, performed c) = Start s (cenvs j))
          /\ (forall i j ei ej,
                callers c !! i = Some (Returned ei) ->
                callers c !! j = Some (Returned ej) -> ei = ej)
          /\ (Forall is_Returned (callers c) \/ exists c', cstep cenvs c c')).
Proof.
  intros s env envs.
  destruct (Start_marks_done s env) as [Hdone Herr].
  split; [| split; [| split; [| split; [| split; [| split]]]]].
  - simpl. destruct (Start s env) as [[s1 e1] evs1]. simpl in *.
    rewrite Starts_done by done. rewrite app_nil_r. by rewrite Herr.
  - exact Herr.
  - intros env'. rewrite Start_done by done. by rewrite Herr.
  - unfold Start. destruct (initOnce s); [done |].
    pose proof (doInit_effects s env) as H.
    destruct (doInit s env) as [s' evs]. simpl in *. by subst evs.
  - destruct (initOnce s) eqn:Hinit.
    + by apply Start_done.
    + by apply Start_runs_start.
  - intros Hinit Hnil. rewrite (Start_runs_start s env Hinit). simpl.
    rewrite Hnil. by destruct ((start s env).1).
  - intros cenvs n c Hsteps.
    pose proof (csteps_inv cenvs s n c Hsteps) as Hinv.
    pose proof (config_progress cenvs s c Hinv) as Hprog.
    destruct Hinv as (I1 & I2 & I3 & I4 & I5).
    assert (Hret : forall i e, callers c !! i = Some (Returned e) ->
              e = initErr (srv c)
              /\ exists j, (srv c, e, performed c) = Start s (cenvs j)).
    { intros i e Hi. pose proof (I4 i e Hi) as ->. split; [done |].
      destruct I5 as [[Hs Hlog] | (_ & _ & j & Hj)]; [| by exists j].
      exists 0%nat. rewrite Hs, Hlog.
      rewrite Start_done; [done |]. rewrite <- Hs.
      eapply I3; [exact Hi | by right]. }
    split; [| split; [exact Hret | split; [| exact Hprog]]].
    + destruct I5 as [[_ ->] | (_ & Hinit & j & Hj)]; [simpl; lia |].
      assert (performed c = (Start s (cenvs j)).2) as ->
        by (by rewrite <- Hj).
      rewrite (Start_runs_start s (cenvs j) Hinit). simpl.
      rewrite start_releases_nothing. simpl. lia.
    + intros i j ei ej Hi Hj.
      destruct (Hret i ei Hi) as [-> _].
      by destruct (Hret j ej Hj) as [-> _].
Qed.

(** Two goroutines call [Start] on a new server while [lb.Start] fails:
    the first runs the initialisation while the second waits, and both
    return the wrapped error of [start]. *)
Example Start_two_goroutines :
  exists c,
    rtc (cstep (fun _ => env_failing (Some lb_Start) "boom"))
        (init_config (newServer "/var/lib/app" None false) 2) c
    /\ callers c
       = [Returned (Some "tsnet: starting backend: boom");
          Returned (Some "tsnet: starting backend: boom")]
    /\ performed c = [EvInit].
Proof.
  eexists. split.
  - eapply rtc_l; [by apply (cstep_enter _ _ 0%nat) |]. simpl.
    eapply rtc_l; [by apply (cstep_init _ _ 0%nat) |]. simpl.
    eapply rtc_l; [by apply (cstep_done _ _ 1%nat) |]. simpl.
    eapply rtc_l; [by apply (cstep_return _ _ 0%nat) |]. simpl.
    eapply rtc_l; [by apply (cstep_return _ _ 1%nat) |]. simpl.
    apply rtc_refl.
  - split; reflexivity.
Qed.

(** The outcome of the first call on a new server is the outcome of
    [start], wrapped. *)
Lemma Start_first (dir : string) (st : option StateStore) (eph : bool)
    (env : StartEnv) :
  (Start (newServer dir st eph) env).1.2
  = wrapf "tsnet: " <$> (start (newServer dir st eph) env).1.
Proof.
  unfold Start, doInit. simpl.
  destruct (start (newServer dir st eph) env) as [[e |] released]; done.
Qed.

(** ** The registry invariant *)

Lemma Start_registry (s : Server) (env : StartEnv) :
  listeners (Start s env).1.1 = listeners s
  /\ heap (Start s env).1.1 = heap s.
Proof.
  unfold Start. destruct (initOnce s); [done |].
  unfold doInit. destruct (start s env) as [[e |] released]; done.
Qed.

Lemma Loopback_registry (s : Server) (senv : StartEnv) (env : LoopbackEnv)
    s' r evs :
  Loopback s senv env = Ok (s', r, evs) ->
  listeners s' = listeners s /\ heap s' = heap s.
Proof.
  unfold Loopback, Loopback_return.
  destruct (Start_registry s senv) as [Hl Hh].
  destruct (Start s senv) as [[s0 err] evs0]. simpl in Hl, Hh.
  intros H.
  repeat (match type of H with
          | context [match ?x with _ => _ end] => destruct x; simpl in H
          end);
    inversion H; subst; simpl; by rewrite ?Hl, ?Hh.
Qed.

Lemma Up_registry (s : Server) (senv : StartEnv) (env : UpEnv) :
  listeners (Up s senv env).1.1 = listeners s
  /\ heap (Up s senv env).1.1 = heap s.
Proof.
  unfold Up. destruct (Start_registry s senv) as [Hl Hh].
  destruct (Start s senv) as [[s0 err] evs0]. simpl in Hl, Hh.
  destruct err; [done |]. by destruct (watch env).
Qed.

Lemma registry_wf_new (dir : string) (st : option StateStore) (eph : bool) :
  registry_wf (newServer dir st eph).
Proof. intros k ln H. simpl in H. by rewrite lookup_empty in H. Qed.

Lemma registry_wf_ext (s s' : Server) :
  listeners s' = listeners s -> heap s' = heap s ->
  registry_wf s -> registry_wf s'.
Proof. unfold registry_wf. intros -> ->. done. Qed.

(** Two handles registered in a well-formed registry under their own
    keys are the same handle if the keys are. *)
Lemma registry_wf_owner (s : Server) (k : listenKey) (ln ln' : ptr)
    (o : listener) :
  registry_wf s -> listeners s !! k = Some ln' ->
  heap s !! ln = Some o -> ln' = ln -> key o = k.
Proof.
  intros Hwf Hk Hh ->. destruct (Hwf _ _ Hk) as (o' & Ho' & Hkey & _).
  congruence.
Qed.

Lemma listener_Close_spec (s : Server) (ln : ptr) (o : listener) :
  registry_wf s -> heap s !! ln = Some o ->
  (listeners s !! key o = Some ln
   /\ conn o = ChanOpen
   /\ listener_Close s ln
      = Ok (set_registry s (delete (key o) (listeners s))
                         (<[ln := set_conn o ChanClosed]> (heap s)), None))
  \/ (listeners s !! key o <> Some ln /\ listener_Close s ln = Ok (s, None)).
Proof.
  intros Hwf Hh. unfold listener_Close. rewrite Hh.
  destruct (listeners s !! key o) as [v |] eqn:Hk; [| by right].
  destruct (decide (v = ln)) as [-> | Hne]; [left | right].
  - destruct (Hwf _ _ Hk) as (o' & Ho' & _ & Hopen).
    assert (o' = o) as -> by congruence.
    by rewrite Hopen.
  - split; [congruence | done].
Qed.

Lemma listener_Close_wf (s : Server) (ln : ptr) s' e :
  registry_wf s -> listener_Close s ln = Ok (s', e) -> registry_wf s'.
Proof.
  intros Hwf H.
  destruct (heap s !! ln) as [o |] eqn:Hh;
    [| unfold listener_Close in H; by rewrite Hh in H].
  destruct (listener_Close_spec s ln o Hwf Hh)
    as [(Hk & Hopen & HC) | (_ & HC)];
    rewrite HC in H; inversion H; subst; [| done].
  intros k p Hp. simpl in Hp.
  destruct (decide (k = key o)) as [-> | Hne];
    [by rewrite lookup_delete_eq in Hp |].
  rewrite lookup_delete_ne in Hp by done.
  destruct (Hwf _ _ Hp) as (o' & Ho' & Hkey & Hop).
  exists o'. simpl. split; [| done].
  rewrite lookup_insert_ne; [done |].
  intros <-. congruence.
Qed.

Section Registry.

Context {net : Net}.

(** What [Listen] does to the registry: nothing when it returns an
    error; else one entry is added under a key that was free, pointing
    to a new listener object with that key and an open channel. *)
Lemma Listen_spec (s : Server) (env : StartEnv) (network addr : string) :
  match (Listen s env network addr).1.2 with
  | Err _ =>
      listeners (Listen s env network addr).1.1 = listeners s
      /\ heap (Listen s env network addr).1.1 = heap s
  | Val ln =>
      exists k,
        listen_key network addr = Val k
        /\ listeners s !! k = None
        /\ heap s !! ln = None
        /\ listeners (Listen s env network addr).1.1
           = <[k := ln]> (listeners s)
        /\ heap (Listen s env network addr).1.1
           = <[ln := mkListener k addr ChanOpen]> (heap s)
  end.
Proof.
  unfold Listen. destruct (listen_key network addr) as [k | e]; [| done].
  destruct (Start_registry s env) as [Hl Hh].
  destruct (Start s env) as [[s1 err] evs]. simpl in Hl, Hh.
  destruct err as [e |]; [done |].
  destruct (listeners s1 !! k) as [v |] eqn:Hk; simpl; [done |].
  exists k. rewrite <- Hl, <- Hh. repeat split; try done.
  apply not_elem_of_dom, is_fresh.
Qed.

Lemma Listen_wf (s : Server) (env : StartEnv) (network addr : string) :
  registry_wf s -> registry_wf (Listen s env network addr).1.1.
Proof.
  intros Hwf. pose proof (Listen_spec s env network addr) as H.
  destruct ((Listen s env network addr).1.2) as [ln | e].
  - destruct H as (k & _ & Hfree & Hnew & Hl & Hh).
    intros k' p Hp. rewrite Hl in Hp. rewrite Hh.
    destruct (decide (k' = k)) as [-> | Hne].
    + rewrite lookup_insert_eq in Hp. inversion Hp; subst p.
      eexists. rewrite lookup_insert_eq. done.
    + rewrite lookup_insert_ne in Hp by done.
      destruct (Hwf _ _ Hp) as (o & Ho & Hkey & Hop).
      exists o. split; [| done].
      rewrite lookup_insert_ne; [done |]. intros <-. congruence.
  - destruct H as [Hl Hh]. by apply (registry_wf_ext s).
Qed.

Lemma step_wf (s s' : Server) :
  step s s' -> registry_wf s -> registry_wf s'.
Proof.
  intros Hstep Hwf. destruct Hstep as
    [s env s' e evs H | s env network addr s' r evs H | s ln s' e H
    | s senv env s' r evs H | s senv env s' r evs H | s s' e H].
  - destruct (Start_registry s env) as [Hl Hh]. rewrite H in Hl, Hh.
    by apply (registry_wf_ext s).
  - pose proof (Listen_wf s env network addr Hwf) as H'.
    by rewrite H in H'.
  - by apply (listener_Close_wf s ln s' e).
  - destruct (Loopback_registry _ _ _ _ _ _ H) as [Hl Hh].
    by apply (registry_wf_ext s).
  - destruct (Up_registry s senv env) as [Hl Hh]. rewrite H in Hl, Hh.
    by apply (registry_wf_ext s).
  - unfold Server_Close in H. case_decide; [| done].
    inversion H; subst. intros k ln Hk. simpl in Hk.
    by rewrite lookup_empty in Hk.
Qed.

Lemma steps_wf (s s' : Server) :
  steps s s' -> registry_wf s -> registry_wf s'.
Proof. induction 1; eauto using step_wf. Qed.

Lemma reachable_wf (s : Server) : reachable s -> registry_wf s.
Proof.
  intros (dir & st & eph & H).
  eapply steps_wf; [exact H | apply registry_wf_new].
Qed.

(** A listener object keeps its key for ever. *)
Lemma step_key (s s' : Server) (ln : ptr) (o : listener) :
  step s s' -> heap s !! ln = Some o ->
  exists o', heap s' !! ln = Some o' /\ key o' = key o.
Proof.
  intros Hstep Ho. destruct Hstep as
    [s env s' e evs H | s env network addr s' r evs H | s p s' e H
    | s senv env s' r evs H | s senv env s' r evs H | s s' e H].
  - destruct (Start_registry s env) as [_ Hh]. rewrite H in Hh. simpl in Hh.
    exists o. by rewrite Hh.
  - pose proof (Listen_spec s env network addr) as HL. rewrite H in HL.
    simpl in HL. destruct r as [q | e].
    + destruct HL as (k & _ & _ & Hnew & _ & Hh). exists o.
      rewrite Hh, lookup_insert_ne; [done |]. intros <-. congruence.
    + destruct HL as [_ Hh]. exists o. by rewrite Hh.
  - unfold listener_Close in H.
    destruct (heap s !! p) as [op |] eqn:Hp; [| done].
    destruct (listeners s !! key op) as [v |]; [| inversion H; subst; eauto].
    destruct (decide (v = p)); [| inversion H; subst; eauto].
    destruct (close_chan (conn op)) as [ch | m] eqn:Hc; [| done].
    simpl in H. inversion H; subst. simpl.
    destruct (decide (p = ln)) as [-> | Hne].
    * rewrite lookup_insert_eq. eexists. split; [done |].
      simpl. congruence.
    * rewrite lookup_insert_ne by done. eauto.
  - destruct (Loopback_registry _ _ _ _ _ _ H) as [_ Hh].
    exists o. by rewrite Hh.
  - destruct (Up_registry s senv env) as [_ Hh]. rewrite H in Hh. simpl in Hh.
    exists o. by rewrite Hh.
  - unfold Server_Close in H. case_decide; [| done].
    inversion H; subst. eauto.
Qed.

Lemma steps_key (s s' : Server) (ln : ptr) (o : listener) :
  steps s s' -> heap s !! ln = Some o ->
  exists o', heap s' !! ln = Some o' /\ key o' = key o.
Proof.
  intros H. revert o. induction H as [s | s s1 s2 H1 _ IH]; intros o Ho.
  - eauto.
  - destruct (step_key _ _ _ _ H1 Ho) as (o1 & Ho1 & Hk1).
    destruct (IH _ Ho1) as (o2 & Ho2 & Hk2).
    exists o2. split; [done | congruence].
Qed.

End Registry.

(** ** Listener operations *)

Lemma sample_listening_reachable : @reachable sampleNet sample_listening.
Proof.
  exists "/var/lib/app", None, false.
  apply rtc_once. unfold sample_listening.
  destruct (@Listen sampleNet (newServer "/var/lib/app" None false)
              env_ok "tcp" ":80") as [[s r] evs] eqn:E.
  by eapply (@step_Listen sampleNet).
Qed.

Lemma sample_listening_heap :
  heap sample_listening !! 0%nat
  = Some (mkListener (mkListenKey "tcp" netip.AddrZero 80) ":80" ChanOpen)
  /\ listeners sample_listening !! mkListenKey "tcp" netip.AddrZero 80
     = Some 0%nat.
Proof. by vm_compute. Qed.

Lemma listen_key_network `{net : Net} (name addr : string) (k : listenKey) :
  listen_key name addr = Val k -> network k = name.
Proof.
  unfold listen_key. intros H.
  repeat (match type of H with
          | context [match ?x with _ => _ end] => destruct x
          | context [if ?b then _ else _] => destruct b
          end; try discriminate).
  by inversion H.
Qed.

Section ListenerTheorems.

Context {net : Net}.

(** C6: on a handle of a listener in a reachable state, [Close] returns
    nil without panicking.  If the registry entry of the listener's key
    is this listener, the entry is removed and the channel, which was
    open, is closed, so that an [Accept] returns the closed error
    instead of blocking.  Otherwise (a second [Close], or the key now
    belongs to another listener) nothing changes.  A further [Close]
    changes nothing. *)
Theorem listener_Close_idempotent :
  forall (s : Server) (ln : ptr) (o : listener),
    reachable s -> heap s !! ln = Some o ->
    exists s',
      listener_Close s ln = Ok (s', None)
      /\ reachable s'
      /\ (listeners s !! key o = Some ln ->
          conn o = ChanOpen
          /\ listeners s' = delete (key o) (listeners s)
          /\ heap s' = <[ln := set_conn o ChanClosed]> (heap s)
          /\ Accept s' ln None
             = Ok (Some (None, Some (wrapf "tsnet: " ErrClosed))))
      /\ (listeners s !! key o <> Some ln -> s' = s)
      /\ listener_Close s' ln = Ok (s', None).
Proof.
  intros s ln o Hreach Hh.
  pose proof (reachable_wf s Hreach) as Hwf.
  destruct (listener_Close_spec s ln o Hwf Hh)
    as [(Hk & Hopen & HC) | (Hk & HC)].
  - eexists. split; [exact HC |].
    assert (Hreach' : reachable
              (set_registry s (delete (key o) (listeners s))
                            (<[ln := set_conn o ChanClosed]> (heap s)))).
    { destruct Hreach as (dir & st & eph & Hs). exists dir, st, eph.
      eapply rtc_r; [exact Hs |]. by eapply step_Close. }
    split; [exact Hreach' |]. split; [| split].
    + intros _. repeat split; try done.
      unfold Accept. simpl. by rewrite lookup_insert_eq.
    + intros Hne. by destruct Hne.
    + unfold listener_Close. simpl.
      rewrite lookup_insert_eq. simpl. by rewrite lookup_delete_eq.
  - exists s. repeat split; done.
Qed.

(** C7: [Listen] with arguments that lead to a key already in the
    registry returns an error; the registry and the listener objects
    are as before, the entry of the key is the original listener, and
    every resolution gives what it gave before. *)
Theorem Listen_already_bound :
  forall (s : Server) (env : StartEnv) (network addr : string)
         (k : listenKey) (ln0 : ptr),
    listen_key network addr = Val k ->
    listeners s !! k = Some ln0 ->
    exists s' e evs,
      Listen s env network addr = (s', Err e, evs)
      /\ listeners s' = listeners s
      /\ heap s' = heap s
      /\ listeners s' !! k = Some ln0
      /\ forall netBase dst,
           listenerForDstAddr (listeners s') netBase dst
           = listenerForDstAddr (listeners s) netBase dst.
Proof.
  intros s env network addr k ln0 Hkey Hk.
  unfold Listen. rewrite Hkey.
  destruct (Start_registry s env) as [Hl Hh].
  destruct (Start s env) as [[s1 err] evs]. simpl in Hl, Hh.
  destruct err as [e |].
  - exists s1, e, evs. rewrite Hl, Hh. done.
  - rewrite Hl, Hk. eexists s1, _, evs. rewrite Hl, Hh. done.
Qed.

(** C10: a listener that [Listen] returns for the network "" is
    registered under a key whose network is "", and from then on no
    resolution for the base "tcp" or "udp" returns it. *)
Theorem empty_network_never_resolved :
  forall (s : Server) (env : StartEnv) (addr : string)
         (s' : Server) (ln : ptr) (evs : list effect),
    reachable s ->
    Listen s env "" addr = (s', Val ln, evs) ->
    (exists o, heap s' !! ln = Some o
               /\ network (key o) = ""
               /\ listeners s' !! key o = Some ln)
    /\ forall s'' netBase dst,
         steps s' s'' -> is_base netBase ->
         listenerForDstAddr (listeners s'') netBase dst <> Ok (Some ln).
Proof.
  intros s env addr s' ln evs Hreach HL.
  pose proof (reachable_wf s Hreach) as Hwf.
  pose proof (Listen_spec s env "" addr) as Hspec.
  pose proof (Listen_wf s env "" addr Hwf) as Hwf'.
  rewrite HL in Hspec, Hwf'. simpl in Hspec, Hwf'.
  destruct Hspec as (k & Hkey & _ & _ & Hl & Hh).
  pose proof (listen_key_network _ _ _ Hkey) as Hnet.
  assert (Ho : heap s' !! ln = Some (mkListener k addr ChanOpen))
    by (rewrite Hh; apply lookup_insert_eq).
  split.
  - eexists. split; [exact Ho |]. simpl. split; [done |].
    rewrite Hl. apply lookup_insert_eq.
  - intros s'' netBase dst Hsteps Hb Hres.
    rewrite listenerForDstAddr_first_hit in Hres by done.
    assert (Hhit : first_hit (listeners s'') (resolve_keys netBase dst)
                   = Some ln) by congruence.
    apply first_hit_Some in Hhit.
    destruct Hhit as (k' & Hin & Hk').
    destruct (steps_wf _ _ Hsteps Hwf' _ _ Hk') as (o2 & Ho2 & Hkey2 & _).
    destruct (steps_key _ _ _ _ Hsteps Ho) as (o3 & Ho3 & Hkey3).
    assert (k' = k) as -> by (simpl in Hkey3; congruence).
    unfold resolve_keys, family_of in Hin. simpl in Hin.
    destruct Hb as [-> | ->];
      destruct (netip.Is6 (netip.ap_addr dst));
      repeat (destruct Hin as [<- | Hin]; [discriminate Hnet |]);
      done.
Qed.

End ListenerTheorems.

Lemma listener_Close_idempotent_witness :
  heap sample_listening !! 0%nat
    = Some (mkListener (mkListenKey "tcp" netip.AddrZero 80) ":80" ChanOpen)
  /\ exists s',
       listener_Close sample_listening 0%nat = Ok (s', None)
       /\ listener_Close s' 0%nat = Ok (s', None).
Proof.
  split; [by vm_compute |].
  destruct (@listener_Close_idempotent sampleNet sample_listening 0%nat
              (mkListener (mkListenKey "tcp" netip.AddrZero 80) ":80" ChanOpen)
              sample_listening_reachable ltac:(by vm_compute))
    as (s' & H1 & _ & _ & _ & H2).
  exists s'. split; assumption.
Defined.

Lemma Listen_already_bound_witness :
  @listen_key sampleNet "tcp" ":80"
    = Val (mkListenKey "tcp" netip.AddrZero 80)
  /\ listeners sample_listening !! mkListenKey "tcp" netip.AddrZero 80
     = Some 0%nat
  /\ exists s' e evs,
       @Listen sampleNet sample_listening env_ok "tcp" ":80" = (s', Err e, evs)
       /\ listeners s' !! mkListenKey "tcp" netip.AddrZero 80 = Some 0%nat.
Proof.
  split; [reflexivity |]. split; [by vm_compute |].
  destruct (@Listen_already_bound sampleNet sample_listening env_ok
              "tcp" ":80" (mkListenKey "tcp" netip.AddrZero 80) 0%nat
              ltac:(reflexivity) ltac:(by vm_compute))
    as (s' & e & evs & H1 & _ & _ & H2 & _).
  exists s', e, evs. split; assumption.
Defined.

Lemma empty_network_never_resolved_witness :
  let r := @Listen sampleNet (newServer "/var/lib/app" None false) env_ok
             "" ":53" in
  r = (r.1.1, Val 0%nat, r.2)
  /\ listenerForDstAddr (listeners r.1.1) "udp"
       (netip.mkAddrPort (netip.Addr4 16909060) 53)
     <> Ok (Some 0%nat).
Proof.
  intros r. split; [by vm_compute |].
  refine (proj2 (@empty_network_never_resolved sampleNet
                   (newServer "/var/lib/app" None false) env_ok ":53"
                   r.1.1 0%nat r.2 _ _) r.1.1 "udp" _ _ _).
  - exists "/var/lib/app", None, false. apply rtc_refl.
  - by vm_compute.
  - apply rtc_refl.
  - by right.
Defined.

(** A stale handle: the listener of Listen("tcp", ":80") is closed and
    the key is bound again by a second Listen; a Close through the first
    handle then changes nothing, and a flow to port 80 still resolves to
    the second listener. *)
Example stale_Close_keeps_live_listener :
  exists s1 s2 s3 evs,
    listener_Close sample_listening 0%nat = Ok (s1, None)
    /\ @Listen sampleNet s1 env_ok "tcp" ":80" = (s2, Val 1%nat, evs)
    /\ listener_Close s2 0%nat = Ok (s3, None)
    /\ s3 = s2
    /\ listenerForDstAddr (listeners s3) "tcp" flow_dst = Ok (Some 1%nat).
Proof.
  do 4 eexists.
  split; [by vm_compute |]. split; [by vm_compute |].
  split; [by vm_compute |]. split; [reflexivity | by vm_compute].
Qed.

(** [Listen] does accept the network "": with an address that has an
    empty host and a port in range, the key has the network "". *)
Lemma listen_key_empty_network `{net : Net} (addr portStr : string) (p : Z) :
  SplitHostPort addr = Val ("", portStr) ->
  LookupPort "" portStr = Val p ->
  (0 <= p <= MaxUint16)%Z ->
  listen_key "" addr = Val (mkListenKey "" netip.AddrZero (uint16 p)).
Proof.
  intros Hs Hp [Hlo Hhi]. unfold listen_key. simpl. rewrite Hs, Hp.
  assert ((p <? 0)%Z = false) as -> by lia.
  assert ((p >? MaxUint16)%Z = false) as -> by lia.
  reflexivity.
Qed.

(** ** The handoff to the listener *)

(** While the channel is open, [handle] ends within the grace period:
    either an [Accept] took the connection in time, or the connection was
    closed after one second. *)
Lemma handle_open_grace (s : Server) (ln : ptr) (o : listener) (c : netConn)
    (accept_after : option Z) (pick_send : bool) :
  heap s !! ln = Some o -> conn o = ChanOpen ->
  exists h,
    handle s ln c accept_after pick_send = Ok h
    /\ (0 <= elapsed h <= time_Second)%Z
    /\ ((forall t, accept_after = Some t -> (time_Second < t)%Z) ->
        h = Dropped time_Second).
Proof.
  intros Hh Hopen. unfold handle, select_send. rewrite Hh, Hopen.
  unfold time_Second.
  destruct accept_after as [t |].
  - destruct (Z.ltb_spec t 1000000000).
    + eexists. split; [done |]. simpl. split; [lia |].
      intros Hlate. specialize (Hlate t eq_refl). lia.
    + destruct (Z.eqb_spec t 1000000000); simpl.
      * destruct pick_send; eexists; (split; [done |]); simpl;
          (split; [lia |]); intros Hlate; specialize (Hlate t eq_refl); lia.
      * eexists. split; [done |]. simpl. split; [lia | done].
  - eexists. split; [done |]. simpl. split; [lia | done].
Qed.

(** C4: the claim fails when the listener is closed between the
    resolution of the flow and the handoff.  On the server on which
    Listen("tcp", ":80") returned, the flow to 1.2.3.4:80 resolves to the
    listener; after its [Close], [handle] panics whatever the receiver
    does; the connection is not closed. *)
Theorem handle_on_closed_listener_panics :
  getTCPHandlerForFlow sample_listening flow_src flow_dst
    = Ok (Some (TCPHandler 0%nat), true)
  /\ exists s',
       listener_Close sample_listening 0%nat = Ok (s', None)
       /\ forall (c : netConn) (accept_after : option Z) (pick_send : bool),
            handle s' 0%nat c accept_after pick_send
            = Panic "send on closed channel".
Proof.
  split; [by vm_compute |].
  destruct sample_listening_heap as [Hh Hk].
  destruct (listener_Close_spec sample_listening 0%nat _
              (@reachable_wf sampleNet _ sample_listening_reachable) Hh)
    as [(_ & _ & HC) | (Hne & _)]; [| by destruct Hne].
  eexists. split; [exact HC |].
  intros c accept_after pick_send. unfold handle. simpl.
  by rewrite lookup_insert_eq.
Qed.

(** ** Up *)

Lemma Up_loop_quiet (pre : list Notify) (post : list (errorOr Notify))
    (st : errorOr Status) :
  Forall quiet pre -> Up_loop ((Val <$> pre) ++ post)%list st = Up_loop post st.
Proof.
  induction 1 as [| n pre [Hmsg Hst] _ IH]; [done |].
  simpl. rewrite Hmsg.
  destruct (State n) as [[] |]; try exact IH. by destruct Hst.
Qed.

(** A status is only returned for a [Running] notification, with a nil
    error and at least one address. *)
Lemma Up_loop_status (ns : list (errorOr Notify)) (st : errorOr Status)
    (status : Status) (e : option error) :
  Up_loop ns st = Some (Some status, e) ->
  e = None /\ st = Val status /\ TailscaleIPs status <> []
  /\ exists n, In (Val n) ns /\ State n = Some Running.
Proof.
  induction ns as [| [n | err] ns IH]; simpl; [done | | done].
  destruct (ErrMessage n); [done |].
  destruct (State n) as [[] |] eqn:Hst;
    try (intros H; destruct (IH H) as (? & ? & ? & n' & ? & ?);
         repeat split; eauto).
  destruct st as [st' | err]; [| done].
  destruct (TailscaleIPs st') as [| ip ips] eqn:Hips; simpl; [done |].
  intros [= -> <-]. repeat split; try done.
  - by rewrite Hips.
  - eauto.
Qed.

(** When [Start] or [WatchIPNBus] fails, [Up] returns the error. *)
Lemma Up_start_error (s : Server) (senv : StartEnv) (env : UpEnv) (e : error) :
  (Start s senv).1.2 = Some e \/
  ((Start s senv).1.2 = None /\ watch env = Some e) ->
  (Up s senv env).1.2 = Some (None, Some (wrapf "tsnet.Up: " e)).
Proof.
  unfold Up. destruct (Start s senv) as [[s1 err] evs]. simpl.
  intros [-> | [-> ->]]; done.
Qed.

(** C8: after a successful [Start] and subscription, [Up] skips the
    notifications that carry neither an error message nor the Running
    state, and blocks while there are no others.  The first other one
    decides: an error of the subscription (such as a cancelled context)
    or an error message gives an error; Running gives the status if it
    has at least one address, and an error if it has none or cannot be
    read.  A status is never returned together with an error, nor without
    an address. *)
Theorem Up_contract :
  forall (s : Server) (senv : StartEnv) (env : UpEnv)
         (pre : list Notify) (post : list (errorOr Notify)),
    (Start s senv).1.2 = None ->
    watch env = None ->
    nexts env = ((Val <$> pre) ++ post)%list ->
    Forall quiet pre ->
    let r := (Up s senv env).1.2 in
    (post = [] -> r = None)
    /\ (forall e rest, post = Err e :: rest ->
          r = Some (None, Some (wrapf "tsnet.Up: " e)))
    /\ (forall n rest msg, post = Val n :: rest -> ErrMessage n = Some msg ->
          r = Some (None, Some ("tsnet.Up: backend: " ++ msg)))
    /\ (forall n rest, post = Val n :: rest ->
          ErrMessage n = None -> State n = Some Running ->
          match status env with
          | Err e => r = Some (None, Some (wrapf "tsnet.Up: " e))
          | Val st =>
              match TailscaleIPs st with
              | [] => r = Some (None, Some "tsnet.Up: running, but no ip")
              | _ :: _ => r = Some (Some st, None)
              end
          end)
    /\ (forall st e, r = Some (Some st, e) ->
          e = None /\ TailscaleIPs st <> []
          /\ exists n, In (Val n) (nexts env) /\ State n = Some Running).
Proof.
  intros s senv env pre post HStart Hwatch Hnexts Hquiet r.
  assert (Hr : r = Up_loop post (status env)).
  { subst r. unfold Up. destruct (Start s senv) as [[s1 err] evs].
    simpl in HStart. subst err. rewrite Hwatch. simpl.
    by rewrite Hnexts, Up_loop_quiet. }
  assert (Hr' : r = Up_loop (nexts env) (status env))
    by (by rewrite Hr, Hnexts, Up_loop_quiet).
  repeat split.
  - intros ->. by rewrite Hr.
  - intros e rest ->. by rewrite Hr.
  - intros n rest msg -> Hmsg. rewrite Hr. simpl. by rewrite Hmsg.
  - intros n rest -> Hmsg Hst. rewrite Hr. simpl. rewrite Hmsg, Hst.
    destruct (status env) as [st | e]; [| done].
    by destruct (TailscaleIPs st).
  - rewrite Hr' in H. by destruct (Up_loop_status _ _ _ _ H).
  - rewrite Hr' in H. by destruct (Up_loop_status _ _ _ _ H) as (_ & _ & ? & _).
  - rewrite Hr' in H. by destruct (Up_loop_status _ _ _ _ H) as (_ & _ & _ & ?).
Qed.

Lemma Up_contract_witness :
  (Up (newServer "/var/lib/app" None false) env_ok sample_up).1.2
  = Some (Some (mkStatus [netip.Addr4 1681915906]), None).
Proof.
  refine (proj1 (proj2 (proj2 (proj2
    (Up_contract (newServer "/var/lib/app" None false) env_ok sample_up
       [mkNotify None (Some NeedsLogin); mkNotify None (Some Starting)]
       [Val (mkNotify None (Some Running))] _ _ _ _))))
    (mkNotify None (Some Running)) [] _ _ _).
  - reflexivity.
  - reflexivity.
  - reflexivity.
  - repeat constructor; discriminate.
  - reflexivity.
  - reflexivity.
  - reflexivity.
Defined.

(** ** Loopback *)

Lemma EncodeToString_length (src : list Byte.byte) :
  String.length (hex.EncodeToString src) = (2 * length src)%nat.
Proof. induction src as [| v src IH]; simpl; [done | lia]. Qed.

Lemma digit_is_hexdigit (n : N) : hex.is_hexdigit (hex.digit n) = true.
Proof.
  unfold hex.digit. generalize (N.to_nat n). intros k.
  do 17 (destruct k as [| k]; [by vm_compute |]).
  by vm_compute.
Qed.

Lemma EncodeToString_hexdigits (src : list Byte.byte) :
  forallb hex.is_hexdigit (list_ascii_of_string (hex.EncodeToString src))
  = true.
Proof.
  induction src as [| v src IH]; [done |].
  cbn [hex.EncodeToString list_ascii_of_string forallb].
  by rewrite !digit_is_hexdigit, IH.
Qed.

Lemma array16_length (src : nat -> Byte.byte) : length (array16 src) = 16%nat.
Proof. reflexivity. Qed.

(** A credential of [Loopback]: the 32 hex digits of a 16-byte buffer. *)
Lemma credential_shape (src : nat -> Byte.byte) :
  String.length (hex.EncodeToString (array16 src)) = 32%nat
  /\ forallb hex.is_hexdigit
       (list_ascii_of_string (hex.EncodeToString (array16 src))) = true.
Proof.
  split; [by rewrite EncodeToString_length | apply EncodeToString_hexdigits].
Qed.

Lemma Start_effects (s : Server) (env : StartEnv) :
  (Start s env).2 = [] \/ (Start s env).2 = [EvInit].
Proof.
  unfold Start. destruct (initOnce s); [by left | right].
  pose proof (doInit_effects s env) as H.
  by destruct (doInit s env) as [s' evs].
Qed.

(** Once the loopback listener is set on a started server, [Loopback]
    returns its address and the stored credentials and does nothing
    else. *)
Lemma Loopback_again (s : Server) (ln : netListener) (a : string)
    (senv : StartEnv) (env : LoopbackEnv) :
  initOnce s = true -> initErr s = None ->
  loopbackListener s = Some ln -> Addr ln = Some a ->
  Loopback s senv env
  = Ok (s, (a, proxyCred s, localAPICred s, None), []).
Proof.
  intros Hdone Herr Hln Ha. unfold Loopback.
  rewrite Start_done by done. rewrite Herr, Hln.
  unfold Loopback_return. by rewrite Ha.
Qed.

(** C9: when [Loopback] returns without error on a server whose loopback
    listener was not yet set, both credentials are the 32 hex digits of a
    16-byte buffer, each filled by its own read of the random source, and
    the call made two such reads and opened one socket; after any call
    that returned without error, every further call returns the same
    address and credentials, leaves the server as it is and has no
    effect. *)
Theorem Loopback_idempotent :
  forall (s : Server) (senv : StartEnv) (env : LoopbackEnv)
         (s1 : Server) (a pc lc : string) (evs : list effect),
    Loopback s senv env = Ok (s1, (a, pc, lc, None), evs) ->
    (loopbackListener s = None ->
     exists b1 b2,
       rand1 env = Val b1 /\ rand2 env = Val b2
       /\ pc = hex.EncodeToString (array16 b1)
       /\ lc = hex.EncodeToString (array16 b2)
       /\ String.length pc = 32%nat /\ String.length lc = 32%nat
       /\ forallb hex.is_hexdigit (list_ascii_of_string pc) = true
       /\ forallb hex.is_hexdigit (list_ascii_of_string lc) = true
       /\ count_occ effect_eq_dec evs EvRandRead = 2%nat
       /\ count_occ effect_eq_dec evs EvNetListen = 1%nat)
    /\ forall senv' env',
         Loopback s1 senv' env' = Ok (s1, (a, pc, lc, None), []).
Proof.
  intros s senv env s1 a pc lc evs H.
  unfold Loopback in H.
  destruct (Start_marks_done s senv) as [Hdone Herr].
  destruct (Start_registry s senv) as [_ _].
  pose proof (Start_effects s senv) as Hevs.
  assert (Hll : loopbackListener (Start s senv).1.1 = loopbackListener s).
  { unfold Start. destruct (initOnce s); [done |].
    unfold doInit. by destruct (start s senv) as [[e |] released]. }
  destruct (Start s senv) as [[s0 err] evs0]. simpl in *.
  destruct err as [e |]; [done |].
  destruct (loopbackListener s0) as [ln |] eqn:Hln.
  - unfold Loopback_return in H.
    destruct (Addr ln) as [lbAddr |] eqn:Ha; [| done].
    inversion H; subst. split; [intros Hnone; congruence |].
    intros senv' env'. by apply (Loopback_again s1 ln).
  - destruct (rand1 env) as [b1 | e1]; [| done].
    destruct (rand2 env) as [b2 | e2]; [| done].
    destruct (net_Listen env) as [ln | e3]; [| done].
    unfold Loopback_return in H.
    destruct (Addr ln) as [lbAddr |] eqn:Ha; [| done].
    inversion H; subst. simpl. split.
    + intros _. exists b1, b2.
      destruct (credential_shape b1) as [Hl1 Hd1].
      destruct (credential_shape b2) as [Hl2 Hd2].
      repeat split; try done;
        destruct Hevs as [-> | ->]; reflexivity.
    + intros senv' env'.
      by apply (Loopback_again
                  (set_loopbackListener
                     (set_localAPICred
                        (set_proxyCred s0 (hex.EncodeToString (array16 b1)))
                        (hex.EncodeToString (array16 b2)))
                     (Some ln)) ln).
Qed.

Lemma Loopback_idempotent_witness :
  exists s1,
    Loopback (newServer "/var/lib/app" None false) env_ok sample_loopback
    = Ok (s1,
          ("127.0.0.1:43210", "a0a1a2a3a4a5a6a7a8a9aaabacadaeaf",
           "00070e151c232a31383f464d545b6269", None),
          [EvInit; EvRandRead; EvRandRead; EvNetListen; EvServeHTTP;
           EvServeSOCKS])
    /\ Loopback s1 (env_failing (Some os_Executable) "gone") sample_loopback
       = Ok (s1,
             ("127.0.0.1:43210", "a0a1a2a3a4a5a6a7a8a9aaabacadaeaf",
              "00070e151c232a31383f464d545b6269", None),
             []).
Proof.
  eexists. split; [by vm_compute |].
  refine (proj2 (Loopback_idempotent
                   (newServer "/var/lib/app" None false) env_ok
                   sample_loopback _ _ _ _ _ _) _ _).
  by vm_compute.
Defined.

(* ================================================================= *)
(** * Further properties *)

(** ** Resolution and the registry *)

(** X21: resolution panics, with the message of [networkForFamily],
    exactly for a base other than "tcp" and "udp", whatever the
    registry holds. *)
Lemma listenerForDstAddr_panics (m : gmap listenKey ptr) (netBase : string)
    (dst : netip.AddrPort) :
  ~ is_base netBase <-> listenerForDstAddr m netBase dst = Panic "unexpected".
Proof.
  unfold listenerForDstAddr, networkForFamily, is_base. split.
  - intros Hnb.
    destruct (String.eqb_spec netBase "tcp") as [-> | _]; [tauto |].
    destruct (String.eqb_spec netBase "udp") as [-> | _]; [tauto | done].
  - intros H [-> | ->]; simpl in H;
      by destruct (netip.Is6 (netip.ap_addr dst)).
Qed.

Lemma in_resolve_keys (netBase : string) (dst : netip.AddrPort)
    (k : listenKey) :
  In k (resolve_keys netBase dst) ->
  port k = netip.ap_port dst
  /\ (host k = netip.ap_addr dst \/ host k = netip.AddrZero)
  /\ (network k = netBase
      \/ network k = family_of netBase (netip.ap_addr dst)).
Proof.
  unfold resolve_keys. simpl.
  intros [<- | [<- | [<- | [<- | []]]]]; simpl; auto.
Qed.

Section RegistryFacts.

Context {net : Net}.

Lemma resolved_facts :
  forall (s : Server) (netBase : string) (dst : netip.AddrPort) (ln : ptr),
    reachable s -> is_base netBase ->
    listenerForDstAddr (listeners s) netBase dst = Ok (Some ln) ->
    exists o,
      heap s !! ln = Some o
      /\ conn o = ChanOpen
      /\ listeners s !! key o = Some ln
      /\ port (key o) = netip.ap_port dst
      /\ (host (key o) = netip.ap_addr dst \/ host (key o) = netip.AddrZero)
      /\ (network (key o) = netBase
          \/ network (key o) = family_of netBase (netip.ap_addr dst)).
Proof.
  intros s netBase dst ln Hreach Hb Hres.
  rewrite listenerForDstAddr_first_hit in Hres by done.
  assert (Hhit : first_hit (listeners s) (resolve_keys netBase dst) = Some ln)
    by congruence.
  apply first_hit_Some in Hhit. destruct Hhit as (k & Hin & Hk).
  destruct (reachable_wf s Hreach _ _ Hk) as (o & Ho & Hkey & Hopen).
  exists o. subst k.
  destruct (in_resolve_keys _ _ _ Hin) as (Hp & Hh & Hn). done.
Qed.

(** X1: in a reachable state, the listener a resolution returns has an
    open channel, the port of the destination, the address of the
    destination or none, and the base or its family as network: a flow of
    one protocol never resolves to a listener of the other. *)
Theorem resolved_listener_matches :
  forall (s : Server) (netBase : string) (dst : netip.AddrPort) (ln : ptr),
    reachable s -> is_base netBase ->
    listenerForDstAddr (listeners s) netBase dst = Ok (Some ln) ->
    exists o,
      heap s !! ln = Some o
      /\ conn o = ChanOpen
      /\ listeners s !! key o = Some ln
      /\ port (key o) = netip.ap_port dst
      /\ (host (key o) = netip.ap_addr dst \/ host (key o) = netip.AddrZero)
      /\ (network (key o) = netBase
          \/ network (key o) = family_of netBase (netip.ap_addr dst)).
Proof. exact resolved_facts. Qed.

(** Every key [listen_key] builds is well formed. *)
Lemma listen_key_ok (name addr : string) (k : listenKey) :
  listen_key name addr = Val k -> key_ok k.
Proof.
  unfold listen_key. intros H.
  destruct (bool_decide (name ∈ supported_networks)) eqn:Hsup;
    [| discriminate].
  apply bool_decide_eq_true in Hsup. simpl in H.
  destruct (SplitHostPort addr) as [[h portStr] | e]; [| discriminate].
  destruct (LookupPort name portStr) as [p | e]; [| discriminate].
  destruct ((p <? 0)%Z || (p >? MaxUint16)%Z); [discriminate |].
  destruct (bindHost name h) as [a | e] eqn:Hb; [| discriminate].
  inversion H; subst k; clear H.
  unfold key_ok. simpl. split; [done |]. split.
  { unfold uint16.
    pose proof (Z.mod_pos_bound p 65536 ltac:(lia)) as Hm. lia. }
  unfold bindHost in Hb.
  destruct (String.eqb h ""); [inversion Hb; auto |].
  destruct (ParseAddr h) as [a' | e]; [| discriminate].
  destruct (HasSuffix name "4") eqn:H4; simpl in Hb.
  - destruct (netip.Is4 a') eqn:Hv4; simpl in Hb; [| discriminate].
    destruct (HasSuffix name "6") eqn:H6; simpl in Hb.
    + destruct (netip.Is6 a') eqn:Hv6; simpl in Hb; [| discriminate].
      inversion Hb; subst a. auto.
    + inversion Hb; subst a. split; [auto | discriminate].
  - destruct (HasSuffix name "6") eqn:H6; simpl in Hb.
    + destruct (netip.Is6 a') eqn:Hv6; simpl in Hb; [| discriminate].
      inversion Hb; subst a. split; [discriminate | auto].
    + inversion Hb; subst a. split; discriminate.
Qed.

Lemma step_keys_ok (s s' : Server) :
  step s s' ->
  (forall k ln, listeners s !! k = Some ln -> key_ok k) ->
  forall k ln, listeners s' !! k = Some ln -> key_ok k.
Proof.
  intros Hstep IH k ln Hk. destruct Hstep as
    [s env s' e evs H | s env name addr s' r evs H | s p s' e H
    | s senv env s' r evs H | s senv env s' r evs H | s s' e H].
  - destruct (Start_registry s env) as [Hl _]. rewrite H in Hl.
    simpl in Hl. rewrite Hl in Hk. eauto.
  - pose proof (Listen_spec s env name addr) as HL. rewrite H in HL.
    simpl in HL. destruct r as [q | e'].
    + destruct HL as (k0 & Hkey & _ & _ & Hl & _). rewrite Hl in Hk.
      destruct (decide (k = k0)) as [-> | Hne].
      * by eapply listen_key_ok.
      * rewrite lookup_insert_ne in Hk by done. eauto.
    + destruct HL as [Hl _]. rewrite Hl in Hk. eauto.
  - unfold listener_Close in H.
    destruct (heap s !! p) as [op |]; [| done].
    destruct (listeners s !! key op) as [v |];
      [| inversion H; subst; eauto].
    destruct (decide (v = p)); [| inversion H; subst; eauto].
    destruct (close_chan (conn op)); [| done].
    simpl in H. inversion H; subst. simpl in Hk.
    destruct (decide (k = key op)) as [-> | Hne].
    + by rewrite lookup_delete_eq in Hk.
    + rewrite lookup_delete_ne in Hk by done. eauto.
  - destruct (Loopback_registry _ _ _ _ _ _ H) as [Hl _].
    rewrite Hl in Hk. eauto.
  - destruct (Up_registry s senv env) as [Hl _]. rewrite H in Hl.
    simpl in Hl. rewrite Hl in Hk. eauto.
  - unfold Server_Close in H. case_decide; [| done].
    inversion H; subst. simpl in Hk. by rewrite lookup_empty in Hk.
Qed.

(** X2: in a reachable state every key of the registry has a supported
    network name and a 16-bit port, and under a network name ending in 4
    (in 6) the host is unspecified or an IPv4 (IPv6) address. *)
Theorem registry_keys_ok :
  forall (s : Server) (k : listenKey) (ln : ptr),
    reachable s -> listeners s !! k = Some ln -> key_ok k.
Proof.
  intros s k ln (dir & st & eph & Hsteps). revert k ln.
  pattern s. eapply rtc_ind_r; [| | exact Hsteps].
  - intros k ln Hk. simpl in Hk. by rewrite lookup_empty in Hk.
  - intros s1 s2 _ H12 IH k ln. eapply step_keys_ok; eauto.
Qed.

End RegistryFacts.

(** ** Open channels and registered listeners *)

Section LiveListeners.

Context {net : Net}.

Lemma step_open_registered (s s' : Server) :
  step s s' -> registry_wf s -> open_registered s -> open_registered s'.
Proof.
  intros Hstep Hwf Hinv. unfold open_registered in *. destruct Hstep as
    [s env s' e evs H | s env name addr s' r evs H | s p s' e H
    | s senv env s' r evs H | s senv env s' r evs H | s s' e H].
  - destruct (Start_registry s env) as [Hl Hh]. rewrite H in Hl, Hh.
    simpl in Hl, Hh. intros ln o. rewrite Hl, Hh. apply Hinv.
  - pose proof (Listen_spec s env name addr) as HL. rewrite H in HL.
    simpl in HL. destruct r as [q | e'].
    + destruct HL as (k0 & _ & Hfree & Hnew & Hl & Hh).
      intros ln o. rewrite Hl, Hh.
      destruct (decide (ln = q)) as [-> | Hne].
      * rewrite lookup_insert_eq. intros [= <-] _. simpl.
        by rewrite lookup_insert_eq.
      * rewrite lookup_insert_ne by done. intros Ho Hopen.
        pose proof (Hinv _ _ Ho Hopen) as Hreg.
        rewrite lookup_insert_ne; [done |].
        intros Heq. rewrite <- Heq in Hreg. congruence.
    + destruct HL as [Hl Hh]. intros ln o. rewrite Hl, Hh. apply Hinv.
  - destruct (heap s !! p) as [op |] eqn:Hp;
      [| unfold listener_Close in H; by rewrite Hp in H].
    destruct (listener_Close_spec s p op Hwf Hp)
      as [(Hk & Hopen & HC) | (_ & HC)];
      rewrite HC in H; inversion H; subst; [| done].
    intros ln o. simpl.
    destruct (decide (ln = p)) as [-> | Hne].
    + rewrite lookup_insert_eq. by intros [= <-].
    + rewrite lookup_insert_ne by done. intros Ho Hop.
      pose proof (Hinv _ _ Ho Hop) as Hreg.
      rewrite lookup_delete_ne; [done |]. intros Heq.
      rewrite <- Heq in Hreg. congruence.
  - destruct (Loopback_registry _ _ _ _ _ _ H) as [Hl Hh].
    intros ln o. rewrite Hl, Hh. apply Hinv.
  - destruct (Up_registry s senv env) as [Hl Hh]. rewrite H in Hl, Hh.
    simpl in Hl, Hh. intros ln o. rewrite Hl, Hh. apply Hinv.
  - unfold Server_Close in H. case_decide as Hempty; [| done].
    inversion H; subst. intros ln o Ho Hopen. simpl in *.
    pose proof (Hinv _ _ Ho Hopen) as Hreg.
    rewrite Hempty in Hreg. by rewrite lookup_empty in Hreg.
Qed.

Lemma reachable_open_registered (s : Server) :
  reachable s -> open_registered s.
Proof.
  intros (dir & st & eph & Hsteps).
  assert (registry_wf s /\ open_registered s) as [_ H]; [| exact H].
  pattern s. eapply rtc_ind_r; [| | exact Hsteps].
  - split; [apply registry_wf_new |].
    intros ln o Ho. simpl in Ho. by rewrite lookup_empty in Ho.
  - intros s1 s2 _ H12 [Hwf Hinv].
    split; [by eapply step_wf | by eapply step_open_registered].
Qed.

Lemma reachable_open_iff (s : Server) (ln : ptr) (o : listener) :
  reachable s -> heap s !! ln = Some o ->
  (conn o = ChanOpen <-> listeners s !! key o = Some ln).
Proof.
  intros Hreach Ho. split.
  - by apply (reachable_open_registered s Hreach).
  - intros Hk.
    destruct (reachable_wf s Hreach _ _ Hk) as (o' & Ho' & _ & Hopen).
    congruence.
Qed.

(** X3: in a reachable state the channel of a listener is open exactly
    while the listener is the registry entry of its key. *)
Theorem open_iff_registered :
  forall (s : Server) (ln : ptr) (o : listener),
    reachable s -> heap s !! ln = Some o ->
    (conn o = ChanOpen <-> listeners s !! key o = Some ln).
Proof. intros s ln o. apply reachable_open_iff. Qed.

(** X4: on a listener of a reachable state, [Accept] returns the closed
    error exactly when the listener is no longer registered; while it is
    registered it blocks until a sender offers a connection and returns
    this connection with a nil error. *)
Theorem Accept_registered :
  forall (s : Server) (ln : ptr) (o : listener) (offer : option netConn),
    reachable s -> heap s !! ln = Some o ->
    (listeners s !! key o <> Some ln ->
     Accept s ln offer = Ok (Some (None, Some (wrapf "tsnet: " ErrClosed))))
    /\ (listeners s !! key o = Some ln ->
        Accept s ln offer
        = Ok (match offer with
              | Some c => Some (Some c, None)
              | None => None
              end)).
Proof.
  intros s ln o offer Hreach Ho.
  pose proof (reachable_open_iff s ln o Hreach Ho) as Hiff.
  unfold Accept. rewrite Ho. split; intros Hk.
  - destruct (conn o); [by destruct Hk; apply Hiff | done].
  - apply Hiff in Hk. rewrite Hk. by destruct offer.
Qed.

(** X5: while the listener is registered, the handoff does not panic and
    ends within one second: the connection is delivered if an [Accept]
    is ready in time, and it is closed at one second if none is ready
    by then. *)
Theorem handle_registered_grace :
  forall (s : Server) (ln : ptr) (o : listener) (c : netConn)
         (accept_after : option Z) (pick_send : bool),
    reachable s -> heap s !! ln = Some o ->
    listeners s !! key o = Some ln ->
    exists h,
      handle s ln c accept_after pick_send = Ok h
      /\ (0 <= elapsed h <= time_Second)%Z
      /\ ((forall t, accept_after = Some t -> (time_Second < t)%Z) ->
          h = Dropped time_Second)
      /\ (forall t, accept_after = Some t -> (t < time_Second)%Z ->
          h = Delivered (Z.max 0 t)).
Proof.
  intros s ln o c accept_after pick_send Hreach Ho Hk.
  apply (reachable_open_iff s ln o Hreach Ho) in Hk.
  destruct (handle_open_grace s ln o c accept_after pick_send Ho Hk)
    as (h & Hh & Hbound & Hlate).
  exists h. repeat split; try done; try lia.
  intros t -> Ht. unfold handle, select_send in Hh.
  rewrite Ho, Hk in Hh.
  assert ((t <? time_Second)%Z = true) as Hlt by lia.
  rewrite Hlt in Hh. congruence.
Qed.

(** X6: what [Listen] has bound is found: after a successful [Listen]
    with key [k], a flow for which [k] is one of the four keys of the
    resolution, the ones before it being free, resolves to the new
    listener. *)
Theorem Listen_then_resolve :
  forall (s : Server) (env : StartEnv) (name addr : string)
         (s' : Server) (ln : ptr) (evs : list effect)
         (k : listenKey) (netBase : string) (dst : netip.AddrPort)
         (before after : list listenKey),
    Listen s env name addr = (s', Val ln, evs) ->
    listen_key name addr = Val k ->
    is_base netBase ->
    resolve_keys netBase dst = (before ++ k :: after)%list ->
    Forall (fun k' => listeners s !! k' = None) before ->
    listenerForDstAddr (listeners s') netBase dst = Ok (Some ln).
Proof.
  intros s env name addr s' ln evs k netBase dst before after
         HL Hkey Hb Hkeys Hfree.
  pose proof (Listen_spec s env name addr) as Hspec.
  rewrite HL in Hspec. simpl in Hspec.
  destruct Hspec as (k0 & Hkey0 & _ & _ & Hl & _).
  assert (k0 = k) as -> by congruence.
  rewrite listenerForDstAddr_first_hit by done.
  rewrite Hkeys, Hl. f_equal. clear Hkeys.
  induction Hfree as [| k' before Hk' _ IH]; simpl.
  - by rewrite lookup_insert_eq.
  - destruct (decide (k' = k)) as [-> | Hne].
    + by rewrite lookup_insert_eq.
    + rewrite lookup_insert_ne by done. by rewrite Hk'.
Qed.

End LiveListeners.

(** ** Listen, Close and the handles *)

Lemma Listen_started `{net : Net} (s : Server) (env : StartEnv)
    (name addr : string) (s' : Server) (ln : ptr) (evs : list effect) :
  Listen s env name addr = (s', Val ln, evs) ->
  initOnce s' = true /\ initErr s' = None.
Proof.
  unfold Listen. destruct (listen_key name addr) as [k | e]; [| done].
  destruct (Start_marks_done s env) as [Hdone Herr].
  destruct (Start s env) as [[s1 err] evs1]. simpl in Hdone, Herr.
  destruct err as [e |]; [done |].
  destruct (listeners s1 !! k); [done |].
  intros [= <- _ _]. done.
Qed.

Section Handles.

Context {net : Net}.

(** X7: closing the listener that [Listen] has just returned gives the
    registry back as it was before the [Listen], and the same [Listen]
    then succeeds again, without effects, with a handle other than the
    closed one. *)
Theorem Close_frees_key :
  forall (s : Server) (env : StartEnv) (name addr : string)
         (s1 : Server) (ln : ptr) (evs : list effect),
    Listen s env name addr = (s1, Val ln, evs) ->
    exists s2,
      listener_Close s1 ln = Ok (s2, None)
      /\ listeners s2 = listeners s
      /\ forall env', exists s3 ln',
           Listen s2 env' name addr = (s3, Val ln', [])
           /\ ln' <> ln.
Proof.
  intros s env name addr s1 ln evs HL.
  destruct (Listen_started _ _ _ _ _ _ _ HL) as [Hdone Herr].
  pose proof (Listen_spec s env name addr) as Hspec.
  rewrite HL in Hspec. simpl in Hspec.
  destruct Hspec as (k & Hkey & Hfree & Hnew & Hl & Hh).
  assert (Ho : heap s1 !! ln = Some (mkListener k addr ChanOpen))
    by (rewrite Hh; apply lookup_insert_eq).
  assert (Hk : listeners s1 !! k = Some ln)
    by (rewrite Hl; apply lookup_insert_eq).
  unfold listener_Close. rewrite Ho. simpl. rewrite Hk.
  destruct (decide (ln = ln)); [| done]. simpl.
  eexists. split; [reflexivity |]. simpl. split.
  - rewrite Hl. by apply delete_insert_id.
  - intros env'. unfold Listen. rewrite Hkey.
    rewrite Start_done by done. simpl. rewrite Herr.
    rewrite Hl, delete_insert_id by done. rewrite Hfree.
    do 2 eexists. split; [reflexivity |].
    intros Heq.
    pose proof (is_fresh (dom (<[ln:=set_conn (mkListener k addr ChanOpen)
                                     ChanClosed]> (heap s1)))) as Hfresh.
    rewrite Heq in Hfresh. apply Hfresh.
    apply elem_of_dom. rewrite lookup_insert_eq. eauto.
Qed.


(** A listener object keeps its key and its address string for ever. *)
Lemma step_addr (s s' : Server) (ln : ptr) (o : listener) :
  step s s' -> heap s !! ln = Some o ->
  exists o', heap s' !! ln = Some o' /\ key o' = key o /\ addr o' = addr o.
Proof.
  intros Hstep Ho. destruct Hstep as
    [s env s' e evs H | s env name a s' r evs H | s p s' e H
    | s senv env s' r evs H | s senv env s' r evs H | s s' e H].
  - destruct (Start_registry s env) as [_ Hh]. rewrite H in Hh.
    simpl in Hh. exists o. by rewrite Hh.
  - pose proof (Listen_spec s env name a) as HL. rewrite H in HL.
    simpl in HL. destruct r as [q | e].
    + destruct HL as (k & _ & _ & Hnew & _ & Hh). exists o.
      rewrite Hh, lookup_insert_ne; [done |]. intros <-. congruence.
    + destruct HL as [_ Hh]. exists o. by rewrite Hh.
  - unfold listener_Close in H.
    destruct (heap s !! p) as [op |] eqn:Hp; [| done].
    destruct (listeners s !! key op) as [v |]; [| inversion H; subst; eauto].
    destruct (decide (v = p)); [| inversion H; subst; eauto].
    destruct (close_chan (conn op)) as [ch | m] eqn:Hc; [| done].
    simpl in H. inversion H; subst. simpl.
    destruct (decide (p = ln)) as [-> | Hne].
    + rewrite lookup_insert_eq. eexists. split; [done |].
      simpl. split; congruence.
    + rewrite lookup_insert_ne by done. eauto.
  - destruct (Loopback_registry _ _ _ _ _ _ H) as [_ Hh].
    exists o. by rewrite Hh.
  - destruct (Up_registry s senv env) as [_ Hh]. rewrite H in Hh.
    simpl in Hh. exists o. by rewrite Hh.
  - unfold Server_Close in H. case_decide; [| done].
    inversion H; subst. eauto.
Qed.

Lemma steps_addr (s s' : Server) (ln : ptr) (o : listener) :
  steps s s' -> heap s !! ln = Some o ->
  exists o', heap s' !! ln = Some o' /\ key o' = key o /\ addr o' = addr o.
Proof.
  intros H. revert o. induction H as [s | s s1 s2 H1 _ IH]; intros o Ho.
  - eauto.
  - destruct (step_addr _ _ _ _ H1 Ho) as (o1 & Ho1 & Hk1 & Ha1).
    destruct (IH _ Ho1) as (o2 & Ho2 & Hk2 & Ha2).
    exists o2. split; [done |]. split; congruence.
Qed.

(** X8: the address of a listener is what [Listen] was called with:
    [Addr().Network()] is the network argument and [Addr().String()] the
    address argument, in every later state, also after [Close]. *)
Theorem Listen_Addr :
  forall (s : Server) (env : StartEnv) (name a : string)
         (s1 s2 : Server) (ln : ptr) (evs : list effect),
    Listen s env name a = (s1, Val ln, evs) ->
    steps s1 s2 ->
    addr_Network s2 ln = Ok name /\ addr_String s2 ln = Ok a.
Proof.
  intros s env name a s1 s2 ln evs HL Hsteps.
  pose proof (Listen_spec s env name a) as Hspec.
  rewrite HL in Hspec. simpl in Hspec.
  destruct Hspec as (k & Hkey & _ & _ & _ & Hh).
  assert (Ho : heap s1 !! ln = Some (mkListener k a ChanOpen))
    by (rewrite Hh; apply lookup_insert_eq).
  destruct (steps_addr _ _ _ _ Hsteps Ho) as (o2 & Ho2 & Hk2 & Ha2).
  unfold addr_Network, addr_String. rewrite Ho2, Hk2, Ha2. simpl.
  by rewrite (listen_key_network _ _ _ Hkey).
Qed.

(** X9: in a reachable state the callbacks never panic and always answer
    intercept=true.  The handler is nil exactly when the four keys of the
    resolution are free; otherwise it is the handoff to the listener
    registered under the first registered of the four keys.  That
    listener has an open channel, and its key has the port of the flow,
    the destination address of the flow or the zero address as host, and
    a network of the protocol of the callback: the TCP callback never
    hands a flow to a UDP listener, nor the UDP callback to a TCP
    listener. *)
Theorem callbacks_hand_to_own_protocol :
  forall (s : Server) (src dst : netip.AddrPort),
    reachable s ->
    getTCPHandlerForFlow s src dst
    = Ok (TCPHandler <$> first_hit (listeners s) (resolve_keys "tcp" dst),
          true)
    /\ getUDPHandlerForFlow s src dst
       = Ok (UDPHandler <$> first_hit (listeners s) (resolve_keys "udp" dst),
             true)
    /\ forall netBase,
         is_base netBase ->
         (first_hit (listeners s) (resolve_keys netBase dst) = None <->
          Forall (fun k => listeners s !! k = None)
                 (resolve_keys netBase dst))
         /\ forall ln,
              first_hit (listeners s) (resolve_keys netBase dst) = Some ln ->
              exists o,
                heap s !! ln = Some o
                /\ conn o = ChanOpen
                /\ listeners s !! key o = Some ln
                /\ In (key o) (resolve_keys netBase dst)
                /\ port (key o) = netip.ap_port dst
                /\ (host (key o) = netip.ap_addr dst
                    \/ host (key o) = netip.AddrZero)
                /\ network (key o)
                   ∈ [netBase; (netBase ++ "4")%string;
                      (netBase ++ "6")%string].
Proof.
  intros s src dst Hreach. split; [| split].
  - unfold getTCPHandlerForFlow.
    rewrite listenerForDstAddr_first_hit by (by left).
    by destruct (first_hit (listeners s) (resolve_keys "tcp" dst)).
  - unfold getUDPHandlerForFlow.
    rewrite listenerForDstAddr_first_hit by (by right).
    by destruct (first_hit (listeners s) (resolve_keys "udp" dst)).
  - intros netBase Hb. split; [apply first_hit_None |].
    intros ln Hhit. apply first_hit_Some in Hhit.
    destruct Hhit as (k & Hin & Hk).
    destruct (reachable_wf s Hreach _ _ Hk) as (o & Ho & Hkey & Hopen).
    subst k. destruct (in_resolve_keys _ _ _ Hin) as (Hp & Hh & Hn).
    exists o. repeat split; try done.
    destruct Hn as [-> | ->]; [apply list_elem_of_here |].
    unfold family_of. destruct (netip.Is6 (netip.ap_addr dst));
      repeat first [apply list_elem_of_here | apply list_elem_of_further].
Qed.

End Handles.

(** ** Witnesses on the listening sample server *)

Lemma sample_listening_Listen :
  @Listen sampleNet (newServer "/var/lib/app" None false) env_ok "tcp" ":80"
  = (sample_listening, Val 0%nat, [EvInit]).
Proof. by vm_compute. Qed.

Lemma resolved_listener_matches_witness :
  exists o, heap sample_listening !! 0%nat = Some o /\ conn o = ChanOpen.
Proof.
  destruct (@resolved_listener_matches sampleNet sample_listening "tcp"
              flow_dst 0%nat sample_listening_reachable
              (or_introl eq_refl) ltac:(vm_compute; reflexivity))
    as (o & Ho & Hopen & _).
  exists o. split; assumption.
Defined.

Lemma registry_keys_ok_witness : key_ok sample_key.
Proof.
  exact (@registry_keys_ok sampleNet sample_listening sample_key 0%nat
           sample_listening_reachable (proj2 sample_listening_heap)).
Defined.

Lemma open_iff_registered_witness :
  conn sample_obj = ChanOpen
  <-> listeners sample_listening !! key sample_obj = Some 0%nat.
Proof.
  exact (@open_iff_registered sampleNet sample_listening 0%nat sample_obj
           sample_listening_reachable (proj1 sample_listening_heap)).
Defined.

Lemma Accept_registered_witness :
  Accept sample_listening 0%nat (Some 5%nat) = Ok (Some (Some 5%nat, None)).
Proof.
  exact (proj2 (@Accept_registered sampleNet sample_listening 0%nat
                  sample_obj (Some 5%nat) sample_listening_reachable
                  (proj1 sample_listening_heap))
               (proj2 sample_listening_heap)).
Defined.

Lemma handle_registered_grace_witness :
  exists h, handle sample_listening 0%nat 5%nat (Some 250000000%Z) true = Ok h
            /\ (0 <= elapsed h <= time_Second)%Z.
Proof.
  destruct (@handle_registered_grace sampleNet sample_listening 0%nat
              sample_obj 5%nat (Some 250000000%Z) true
              sample_listening_reachable (proj1 sample_listening_heap)
              (proj2 sample_listening_heap))
    as (h & Hh & Hb & _).
  exists h. split; assumption.
Defined.

Lemma Listen_then_resolve_witness :
  listenerForDstAddr (listeners sample_listening) "tcp" flow_dst
  = Ok (Some 0%nat).
Proof.
  refine (@Listen_then_resolve sampleNet
            (newServer "/var/lib/app" None false) env_ok "tcp" ":80"
            sample_listening 0%nat [EvInit] sample_key "tcp" flow_dst
            [mkListenKey "tcp4" (netip.Addr4 16909060) 80;
             mkListenKey "tcp" (netip.Addr4 16909060) 80;
             mkListenKey "tcp4" netip.AddrZero 80]
            [] sample_listening_Listen _ _ _ _).
  - reflexivity.
  - left. reflexivity.
  - reflexivity.
  - repeat constructor.
Defined.

Lemma Close_frees_key_witness :
  exists s2,
    listener_Close sample_listening 0%nat = Ok (s2, None)
    /\ listeners s2 = listeners (newServer "/var/lib/app" None false).
Proof.
  destruct (@Close_frees_key sampleNet
              (newServer "/var/lib/app" None false) env_ok "tcp" ":80"
              sample_listening 0%nat [EvInit] sample_listening_Listen)
    as (s2 & HC & Hl & _).
  exists s2. split; assumption.
Defined.

Lemma Listen_Addr_witness :
  addr_Network sample_listening 0%nat = Ok "tcp"
  /\ addr_String sample_listening 0%nat = Ok ":80".
Proof.
  refine (@Listen_Addr sampleNet
            (newServer "/var/lib/app" None false) env_ok "tcp" ":80"
            sample_listening sample_listening 0%nat [EvInit]
            sample_listening_Listen _).
  apply rtc_refl.
Defined.

Lemma callbacks_hand_to_own_protocol_witness :
  getTCPHandlerForFlow sample_listening flow_src flow_dst
  = Ok (TCPHandler <$> first_hit (listeners sample_listening)
                         (resolve_keys "tcp" flow_dst),
        true).
Proof.
  exact (proj1 (@callbacks_hand_to_own_protocol sampleNet sample_listening
                  flow_src flow_dst sample_listening_reachable)).
Defined.

(** ** A failed initialisation *)

(** X10: once [Start] has returned an error, the server is unchanged by
    any further operation and has no effect on the outside world:
    [Start], [Dial], [LocalClient], [Loopback] and every [Listen] with
    valid arguments return this same error, [Up] returns it wrapped, and
    [APIClient] returns it if the acknowledgement flag is set and the
    error about the flag otherwise, whatever the outside world would
    answer. *)
Theorem failed_Start_is_sticky :
  forall `{net : Net} (s : Server) (env : StartEnv) (e : error)
         (s1 : Server) (evs : list effect),
    Start s env = (s1, Some e, evs) ->
    forall (env' : StartEnv) (d : errorOr netConn) (lenv : LoopbackEnv)
           (uenv : UpEnv),
      Start s1 env' = (s1, Some e, [])
      /\ Dial s1 env' d = (s1, Err e, [])
      /\ LocalClient s1 env' = (s1, Err e, [])
      /\ (forall ack : bool,
            APIClient ack s1 env'
            = (s1,
               Err (if ack then e
                    else "use of Client without setting I_Acknowledge_This_API_Is_Unstable"),
               []))
      /\ Loopback s1 env' lenv = Ok (s1, ("", "", "", Some e), [])
      /\ Up s1 env' uenv = (s1, Some (None, Some (wrapf "tsnet.Up: " e)), [])
      /\ forall name addr k,
           listen_key name addr = Val k ->
           Listen s1 env' name addr = (s1, Err e, []).
Proof.
  intros net s env e s1 evs HS env' d lenv uenv.
  destruct (Start_marks_done s env) as [Hdone Herr].
  rewrite HS in Hdone, Herr. simpl in Hdone, Herr.
  assert (HS' : Start s1 env' = (s1, Some e, []))
    by (rewrite Start_done by done; by rewrite <- Herr).
  unfold Dial, LocalClient, APIClient, Loopback, Up, Listen. simpl.
  rewrite HS'. repeat split.
  - by intros [].
  - intros name addr k ->. reflexivity.
Qed.

Lemma failed_Start_is_sticky_witness :
  exists s1,
    Start (newServer "/var/lib/app" (Some MemStore) false) env_ok
    = (s1,
       Some "tsnet: in-memory store is only supported for Ephemeral nodes",
       [EvInit])
    /\ Dial s1 env_ok (Val 9%nat)
       = (s1,
          Err "tsnet: in-memory store is only supported for Ephemeral nodes",
          []).
Proof.
  eexists. split; [reflexivity |].
  refine (proj1 (proj2 (@failed_Start_is_sticky sampleNet
            (newServer "/var/lib/app" (Some MemStore) false) env_ok
            _ _ _ _ env_ok (Val 9%nat) sample_loopback sample_up))).
  reflexivity.
Defined.

(** X11: when [Loopback] returns an error, it returns it with three
    empty strings; it has opened no socket and started no server, and
    the loopback listener of the server is as before, so that the next
    call tries again. *)
Theorem Loopback_error_opens_nothing :
  forall (s : Server) (senv : StartEnv) (env : LoopbackEnv)
         (s1 : Server) (a pc lc : string) (e : error) (evs : list effect),
    Loopback s senv env = Ok (s1, (a, pc, lc, Some e), evs) ->
    a = "" /\ pc = "" /\ lc = ""
    /\ loopbackListener s1 = loopbackListener s
    /\ ~ In EvNetListen evs
    /\ ~ In EvServeHTTP evs
    /\ ~ In EvServeSOCKS evs.
Proof.
  intros s senv env s1 a pc lc e evs H. unfold Loopback in H.
  pose proof (Start_effects s senv) as Hevs.
  assert (Hll : loopbackListener (Start s senv).1.1 = loopbackListener s).
  { unfold Start. destruct (initOnce s); [done |].
    unfold doInit. by destruct (start s senv) as [[e' |] released]. }
  destruct (Start s senv) as [[s0 err] evs0]. simpl in *.
  assert (Hno : forall ev, ev <> EvInit -> ~ In ev evs0)
    by (intros ev Hev; destruct Hevs as [-> | ->]; simpl; intuition).
  destruct err as [e0 |].
  { inversion H; subst. repeat split; try done; by apply Hno. }
  destruct (loopbackListener s0) as [ln |] eqn:Hln.
  { unfold Loopback_return in H. by destruct (Addr ln). }
  destruct (rand1 env) as [b1 | e1].
  2: { inversion H; subst. repeat split; try done; try congruence;
       by apply Hno. }
  destruct (rand2 env) as [b2 | e2].
  2: { inversion H; subst. simpl.
       repeat split; try done; try congruence;
         rewrite in_app_iff; simpl;
         intros [Hin | [Hin | []]]; try discriminate;
         revert Hin; by apply Hno. }
  destruct (net_Listen env) as [ln | e3].
  2: { inversion H; subst. simpl.
       repeat split; try done; try congruence;
         rewrite !in_app_iff; simpl;
         intros [[Hin | [Hin | []]] | [Hin | []]]; try discriminate;
         revert Hin; by apply Hno. }
  unfold Loopback_return in H. by destruct (Addr ln).
Qed.

Lemma Loopback_error_opens_nothing_witness :
  exists s1 evs,
    Loopback (newServer "/var/lib/app" None false) env_ok loopback_rand2_fails
    = Ok (s1, ("", "", "", Some "unexpected EOF"), evs)
    /\ loopbackListener s1 = None
    /\ ~ In EvNetListen evs.
Proof.
  do 2 eexists. split; [reflexivity |].
  destruct (Loopback_error_opens_nothing
              (newServer "/var/lib/app" None false) env_ok
              loopback_rand2_fails _ _ _ _ _ _ eq_refl)
    as (_ & _ & _ & Hl & Hn & _).
  split; assumption.
Defined.

(** ** The pool of start *)

Lemma pure_check (o : option error) (wrap : error -> error) :
  pure_step (check o wrap).
Proof. intros p. destruct o; [right | left]; eauto. Qed.

Lemma pure_fail (e : error) : pure_step (fail e).
Proof. intros p. right. eauto. Qed.

Lemma pure_ret : pure_step (mret tt).
Proof. intros p. by left. Qed.

Lemma pure_when (b : bool) (m : startM unit) :
  pure_step m -> pure_step (when b m).
Proof. intros Hm. destruct b; [done | apply pure_ret]. Qed.

Lemma pure_bind (m : startM unit) (k : unit -> startM unit) :
  pure_step m -> pure_step (k tt) -> pure_step (m ≫= k).
Proof.
  intros Hm Hk p. unfold mbind, startM_bind.
  destruct (Hm p) as [-> | [e ->]]; [apply Hk | right; eauto].
Qed.

(** A step that leaves the pool alone either ends [start] with the pool
    as it is, or lets it go on with this pool. *)
Lemma bind_pure_cases {B : Type} (m : startM unit) (k : unit -> startM B)
    (p : closeOnErrorPool)
    (P : (error + B) * closeOnErrorPool -> Prop) :
  pure_step m ->
  (forall e, P (inl e, p)) ->
  P (k tt p) ->
  P ((m ≫= k) p).
Proof.
  intros Hm Hfail Hgo. unfold mbind, startM_bind.
  destruct (Hm p) as [-> | [e ->]]; [exact Hgo | apply Hfail].
Qed.

Ltac pure_tac :=
  repeat first
    [ apply pure_check | apply pure_fail | apply pure_ret
    | apply pure_when
    | apply pure_bind
    | match goal with
      | |- pure_step (match ?x with _ => _ end) => destruct x
      end ].

Lemma start_reterr (s : Server) (env : StartEnv) :
  (start s env).1 = reterr_of (start_body s env []).1.
Proof. unfold start. by destruct (start_body s env []). Qed.

(** X12: whatever happens during [start], the release actions it has
    registered when it returns are the first ones of the six, in their
    order of registration; they are all six exactly when [start]
    succeeds. *)
Theorem registered_prefix :
  forall (s : Server) (env : StartEnv),
    registered s env `prefix_of` all_closers
    /\ ((start s env).1 = None <-> registered s env = all_closers).
Proof.
  intros s env. rewrite start_reterr. unfold registered.
  set (P := fun r : (error + unit) * closeOnErrorPool =>
              r.2 `prefix_of` all_closers
              /\ (reterr_of r.1 = None <-> r.2 = all_closers)).
  change (P (start_body s env [])).
  assert (Hfail : forall e p q, all_closers = (p ++ q)%list -> q <> [] ->
                    P (inl e, p)).
  { intros e p q Hpq Hq. split; [by exists q |]. simpl.
    split; [done |]. intros ->. rewrite <- (app_nil_r all_closers) in Hpq at 1.
    apply app_inv_head in Hpq. congruence. }
  unfold start_body.
  repeat first
    [ progress change ((pool_add ?c ≫= ?k) ?p) with (k tt (add p c));
      cbn [add app]
    | progress change ((pool_addFunc ?c ≫= ?k) ?p) with (k tt (addFunc p c));
      cbn [addFunc app]
    | apply bind_pure_cases;
      [ solve [pure_tac]
      | intros e; eapply Hfail; [reflexivity | discriminate]
      | ] ].
  split; [by exists [] | done].
Qed.

(** X13: the in-memory store on a node that is not ephemeral is
    rejected before anything is acquired: if the executable path can be
    read, [start] registers no release action, and the first [Start]
    returns this error, whatever else the outside world answers. *)
Theorem mem_store_needs_ephemeral :
  forall (s : Server) (env : StartEnv),
    Store s = Some MemStore -> Ephemeral s = false -> initOnce s = false ->
    fails env os_Executable = None ->
    registered s env = []
    /\ (Start s env).1.2
       = Some "tsnet: in-memory store is only supported for Ephemeral nodes".
Proof.
  intros s env HS HE Hinit Hexe.
  assert (Hb : start_body s env []
               = (inl "in-memory store is only supported for Ephemeral nodes",
                  [])).
  { unfold start_body. rewrite Hexe, HS, HE. reflexivity. }
  split.
  - unfold registered. by rewrite Hb.
  - unfold Start, doInit, start. rewrite Hinit, Hb. reflexivity.
Qed.

Lemma mem_store_needs_ephemeral_witness :
  registered (newServer "/var/lib/app" (Some MemStore) false)
             (env_failing (Some lb_Start) "boom") = []
  /\ (Start (newServer "/var/lib/app" (Some MemStore) false)
            (env_failing (Some lb_Start) "boom")).1.2
     = Some "tsnet: in-memory store is only supported for Ephemeral nodes".
Proof.
  apply mem_store_needs_ephemeral; reflexivity.
Defined.

(** ** TailscaleIPs *)

Lemma last_cons_default {A : Type} (x d : A) (l : list A) :
  List.last (x :: l) d = List.last l x.
Proof.
  revert x d. induction l as [| y l IH]; intros x d; [done |].
  change (List.last (x :: y :: l) d) with (List.last (y :: l) d).
  by rewrite (IH y d), (IH y x).
Qed.

Lemma TailscaleIPs_fold (addrs : list Prefix) (ip4 ip6 : netip.Addr) :
  fold_left TailscaleIPs_step addrs (ip4, ip6)
  = (List.last (List.filter netip.Is4 (map prefix_Addr addrs)) ip4,
     List.last (List.filter netip.Is6 (map prefix_Addr addrs)) ip6).
Proof.
  revert ip4 ip6. induction addrs as [| a addrs IH]; intros ip4 ip6; [done |].
  cbn [fold_left map List.filter]. unfold TailscaleIPs_step at 2.
  cbn [fst snd]. rewrite IH.
  destruct (netip.Is4 (prefix_Addr a)), (netip.Is6 (prefix_Addr a));
    by rewrite ?last_cons_default.
Qed.

Lemma last_filter_true {A : Type} (f : A -> bool) (l : list A) (d : A) :
  List.filter f l <> [] -> f (List.last (List.filter f l) d) = true.
Proof.
  intros Hne.
  assert (Hin : In (List.last (List.filter f l) d) (List.filter f l)).
  { destruct (exists_last Hne) as (l' & x & ->).
    rewrite last_last. apply in_or_app. right. by left. }
  by apply filter_In in Hin as [_ Hf].
Qed.

(** X14: with a network map, [TailscaleIPs] returns as ip4 the last IPv4
    address of [nm.Addresses] and as ip6 the last IPv6 address, each the
    zero address if there is none of its family; ip4 is never an IPv6
    address nor ip6 an IPv4 address. *)
Theorem TailscaleIPs_last :
  forall (addrs : list Prefix),
    let ips := map prefix_Addr addrs in
    exists ip4 ip6,
      Server_TailscaleIPs (Some addrs) = Ok (ip4, ip6)
      /\ ip4 = List.last (List.filter netip.Is4 ips) netip.AddrZero
      /\ ip6 = List.last (List.filter netip.Is6 ips) netip.AddrZero
      /\ (ip4 = netip.AddrZero <-> Forall (fun ip => netip.Is4 ip = false) ips)
      /\ (ip6 = netip.AddrZero <-> Forall (fun ip => netip.Is6 ip = false) ips)
      /\ netip.Is6 ip4 = false
      /\ netip.Is4 ip6 = false.
Proof.
  intros addrs ips. unfold Server_TailscaleIPs. rewrite TailscaleIPs_fold.
  fold ips. do 2 eexists. split; [reflexivity |].
  split; [reflexivity |]. split; [reflexivity |].
  assert (Hzero : forall f,
            (forall ip, f ip = true -> ip <> netip.AddrZero) ->
            List.last (List.filter f ips) netip.AddrZero = netip.AddrZero
            <-> Forall (fun ip => f ip = false) ips).
  { intros f Hf. split.
    - intros Hlast.
      destruct (List.filter f ips) as [| x l] eqn:Hfl.
      + apply Forall_forall. intros ip Hin.
        destruct (f ip) eqn:Hfi; [| done].
        assert (In ip (List.filter f ips)) as Hin'
          by (apply filter_In; split; [by apply list_elem_of_In | done]).
        rewrite Hfl in Hin'. destruct Hin'.
      + exfalso. rewrite <- Hfl in Hlast.
        assert (Hne : List.filter f ips <> []) by (by rewrite Hfl).
        pose proof (last_filter_true f ips netip.AddrZero Hne) as Ht.
        by apply Hf in Ht.
    - intros Hall.
      assert (List.filter f ips = []) as ->; [| done].
      induction Hall as [| ip l Hip _ IH]; [done |].
      simpl. by rewrite Hip. }
  split; [apply Hzero; by intros [] |].
  split; [apply Hzero; by intros [] |].
  split.
  - destruct (List.filter netip.Is4 ips) as [| x l] eqn:Hfl; [done |].
    assert (Hne : List.filter netip.Is4 ips <> []) by (by rewrite Hfl).
    pose proof (last_filter_true netip.Is4 ips netip.AddrZero Hne) as Ht.
    rewrite Hfl in Ht.
    by destruct (List.last (x :: l) netip.AddrZero).
  - destruct (List.filter netip.Is6 ips) as [| x l] eqn:Hfl; [done |].
    assert (Hne : List.filter netip.Is6 ips <> []) by (by rewrite Hfl).
    pose proof (last_filter_true netip.Is6 ips netip.AddrZero Hne) as Ht.
    rewrite Hfl in Ht.
    by destruct (List.last (x :: l) netip.AddrZero).
Qed.

(** ** getTSNetDir *)

(** X15: [getTSNetDir] returns no other path than the new one; it calls
    [os.Rename], once and from the old path to the new one, exactly when
    the old path is a directory and the new path is neither a directory
    nor unreadable; when the old path does not exist it returns the new
    path and touches nothing. *)
Theorem getTSNetDir_migration :
  forall (fs : FSEnv) (confDir prog : string),
    let oldPath := Join fs confDir ("tslib-" ++ prog) in
    let newPath := Join fs confDir ("tsnet-" ++ prog) in
    let r := getTSNetDir fs confDir prog in
    (forall p, r.1 = Val p -> p = newPath)
    /\ (In (FsRename oldPath newPath) r.2 <->
        Lstat fs oldPath = LstatDir
        /\ Lstat fs newPath <> LstatDir
        /\ forall e, Lstat fs newPath <> LstatError e)
    /\ (forall a b, In (FsRename a b) r.2 -> a = oldPath /\ b = newPath)
    /\ length (List.filter (fun ev => match ev with
                                      | FsRename _ _ => true
                                      | FsLogf _ => false
                                      end) r.2) <= 1
    /\ (Lstat fs oldPath = LstatNotExist -> r = (Val newPath, []))
    /\ (forall e, r.1 = Err e -> forall msg, ~ In (FsLogf msg) r.2).
Proof.
  intros fs confDir prog oldPath newPath r. subst r.
  unfold getTSNetDir. fold oldPath newPath.
  destruct (Lstat fs oldPath) as [| mode | | e0] eqn:Hold;
    [destruct (Lstat fs newPath) as [| mode | | e1] eqn:Hnew;
     [| destruct (Rename fs oldPath newPath) as [er |]
      | destruct (Rename fs oldPath newPath) as [er |] |] | | |];
    simpl; repeat split;
    try done; try congruence; try lia;
    try (intros; intuition congruence);
    try (intros [? | [? | []]]; congruence);
    try (intros; naive_solver).
Qed.

(** ** printAuthURLLoop *)

Lemma printAuthURLLoop_after_stop (before : list pollObs) (o : pollObs)
    (after : list pollObs) :
  stops o = true ->
  printAuthURLLoop (before ++ o :: after) = printAuthURLLoop (before ++ [o]).
Proof.
  intros Hstop. induction before as [| b before IH]; simpl.
  - unfold stops in Hstop.
    destruct (ctxErr o); [done |].
    destruct (bool_decide (lbState o = NeedsLogin)); simpl in *; [| done].
    by rewrite Hstop.
  - by rewrite IH.
Qed.

(** X16: the loop returns exactly when a turn observes the shutdown, a
    state other than NeedsLogin, or the shutdown during its wait, and
    what is observed after that turn changes nothing.  It logs at most
    one line per turn, and every authorization URL it logs is a non-empty
    URL observed in a turn that began before the shutdown with the
    backend in NeedsLogin. *)
Theorem printAuthURLLoop_stops :
  forall (obs : list pollObs),
    (printAuthURLLoop obs).1 = existsb stops obs
    /\ length (printAuthURLLoop obs).2 <= length obs
    /\ (forall url, In (LogAuthURL url) (printAuthURLLoop obs).2 ->
          url <> ""
          /\ exists o, In o obs /\ AuthURL o = url
                       /\ ctxErr o = false /\ lbState o = NeedsLogin)
    /\ (forall before o after,
          obs = (before ++ o :: after)%list -> stops o = true ->
          printAuthURLLoop obs = printAuthURLLoop (before ++ [o])).
Proof.
  intros obs. split; [| split; [| split]].
  - induction obs as [| o obs IH]; [done |].
    simpl. unfold stops. destruct (ctxErr o); [done |].
    destruct (bool_decide (lbState o = NeedsLogin)); simpl; [| done].
    destruct (doneFirst o); [done |].
    by destruct (printAuthURLLoop obs).
  - induction obs as [| o obs IH]; [done |].
    simpl. destruct (ctxErr o); [simpl; lia |].
    destruct (bool_decide (lbState o = NeedsLogin)); simpl; [| lia].
    assert (length (log_AuthURL o) <= 1)
      by (unfold log_AuthURL; destruct (String.eqb (AuthURL o) ""); simpl; lia).
    destruct (doneFirst o); [simpl; lia |].
    destruct (printAuthURLLoop obs) as [ret lines]. simpl in *.
    rewrite length_app. lia.
  - induction obs as [| o obs IH]; [done |].
    intros url. simpl. destruct (ctxErr o) eqn:Hctx; [done |].
    destruct (bool_decide (lbState o = NeedsLogin)) eqn:Hst; simpl;
      [| by intros [? | []]].
    apply bool_decide_eq_true in Hst.
    assert (Hown : In (LogAuthURL url) (log_AuthURL o) ->
                   url <> "" /\ exists o', In o' (o :: obs) /\ AuthURL o' = url
                     /\ ctxErr o' = false /\ lbState o' = NeedsLogin).
    { unfold log_AuthURL.
      destruct (String.eqb_spec (AuthURL o) "") as [| Hne]; [done |].
      intros [[= <-] | []]. split; [done |]. exists o. simpl. auto. }
    destruct (doneFirst o); [exact Hown |].
    destruct (printAuthURLLoop obs) as [ret lines]. simpl in *.
    rewrite in_app_iff. intros [Hin | Hin]; [by apply Hown |].
    destruct (IH url Hin) as (Hne & o' & Hin' & Hrest).
    split; [done |]. exists o'. auto.
  - intros before o after -> Hstop. by apply printAuthURLLoop_after_stop.
Qed.

(** ** tailscale configure synology *)

Import synology.

Ltac syn_red :=
  cbn [body when fail act mbind mret M_bind M_ret app fst snd wrap_out
       is_NotExist fmap option_fmap option_map negb andb orb length
       Nat.ltb Nat.leb].

Ltac syn_step fin :=
  syn_red; try solve [fin];
  first
    [ match goal with
      | |- context [String.eqb ?a ?b] => destruct (String.eqb_spec a b)
      end
    | match goal with
      | |- context [Z.eqb ?a ?b] => destruct (Z.eqb_spec a b)
      end
    | match goal with
      | |- context [String.prefix ?a ?b] =>
          let E := fresh "Hver" in destruct (String.prefix a b) eqn:E
      end
    | match goal with
      | |- context [stat_tun ?e] => destruct (stat_tun e) eqn:?
      end
    | match goal with
      | |- context [mkdir_devnet ?e] => destruct (mkdir_devnet e) eqn:?
      end
    | match goal with
      | |- context [mknod ?e] => destruct (mknod e) as [[? ?] |] eqn:?
      end
    | match goal with
      | |- context [chmod_devnet ?e] => destruct (chmod_devnet e) eqn:?
      end
    | match goal with
      | |- context [chmod_tun ?e] => destruct (chmod_tun e) eqn:?
      end
    | match goal with
      | |- context [stat_daemon ?e] => destruct (stat_daemon e) eqn:?
      end
    | match goal with
      | |- context [setcap ?e] => destruct (setcap e) as [[? ?] |] eqn:?
      end ].

(** X17: the command does nothing to the machine unless it is called
    without arguments, on Linux, on a Synology device, as root, with DSM
    6 or 7: otherwise it returns an error and has done nothing. *)
Theorem synology_acts_only_when_permitted :
  forall (args : list string) (env : Env),
    permitted args env
    \/ exists e, runConfigureSynology args env = (Some e, []).
Proof.
  intros args env. unfold runConfigureSynology, body.
  destruct args as [| a args]; [| right; eexists; reflexivity].
  syn_red.
  destruct (String.eqb_spec (GOOS env) "linux") as [HG | HG];
    [| right; eexists; reflexivity].
  destruct (String.eqb_spec (distro_Get env) distro_Synology) as [HD | HD];
    [| right; eexists; reflexivity].
  syn_red.
  destruct (Z.eqb_spec (Getuid env) 0) as [HU | HU];
    [| right; eexists; reflexivity].
  syn_red.
  destruct (String.prefix "6." (DistroVersion env)) eqn:H6;
    [left; repeat split; auto |].
  destruct (String.prefix "7." (DistroVersion env)) eqn:H7;
    [left; repeat split; auto |].
  right; eexists; reflexivity.
Qed.

(** X18: when the command succeeds, what it did is: create /dev/net and
    the tun device if and only if the device did not exist; then set the
    mode of /dev/net to 0755 and of /dev/net/tun to 0666; then, on DSM 6,
    nothing but a message, and else give the daemon its capabilities
    with setcap. *)
Theorem synology_success :
  forall (args : list string) (env : Env),
    (runConfigureSynology args env).1 = None ->
    exists msg,
      (runConfigureSynology args env).2
      = ((if is_NotExist (stat_tun env)
          then [MkdirAll "/dev/net" 493; mknod_tun] else [])
         ++ [Chmod "/dev/net" 493; Chmod "/dev/net/tun" 438]
         ++ (if String.prefix "6." (DistroVersion env)
             then [] else [setcap_daemon])
         ++ [Printf msg])%list.
Proof.
  intros args env. unfold runConfigureSynology, body.
  destruct args as [| a args]; [| discriminate].
  repeat (syn_step ltac:(first [ discriminate
                               | intros _; eexists; reflexivity ])).
Qed.

(** X19: what the command never does: on DSM 6 it never runs setcap; if
    the tun device exists, or its state cannot be read, it creates
    neither the directory nor the device; it runs mknod only after
    /dev/net was created; and it runs setcap only if the daemon binary
    exists and both modes were set before. *)
Theorem synology_never :
  forall (args : list string) (env : Env),
    let acts := (runConfigureSynology args env).2 in
    (String.prefix "6." (DistroVersion env) = true ->
     ~ In setcap_daemon acts)
    /\ (stat_tun env <> StatNotExist ->
        ~ In (MkdirAll "/dev/net" 493) acts /\ ~ In mknod_tun acts)
    /\ (In mknod_tun acts ->
        mkdir_devnet env = None /\ In (MkdirAll "/dev/net" 493) acts)
    /\ (In setcap_daemon acts ->
        stat_daemon env = StatOk
        /\ chmod_devnet env = None /\ chmod_tun env = None
        /\ exists before after,
             acts = (before ++ [Chmod "/dev/net" 493; Chmod "/dev/net/tun" 438;
                                setcap_daemon] ++ after)%list).
Proof.
  intros args env acts. subst acts. unfold runConfigureSynology, body.
  assert (Hsplit1 : forall x y z : action,
            exists before after,
              [x; y; z] = (before ++ [x; y; z] ++ after)%list)
    by (intros; exists [], []; reflexivity).
  destruct args as [| a args].
  2: { simpl. unfold setcap_daemon, mknod_tun. intuition discriminate. }
  repeat (syn_step ltac:(
    simpl; unfold setcap_daemon, mknod_tun;
    repeat split; try congruence;
    try (intros; intuition (try discriminate; try congruence));
    try (intros; eexists [], _; reflexivity);
    try (intros; eexists [_; _], _; reflexivity))).
Qed.

Lemma synology_success_witness :
  exists msg,
    (runConfigureSynology [] sample_dsm7).2
    = [MkdirAll "/dev/net" 493; mknod_tun;
       Chmod "/dev/net" 493; Chmod "/dev/net/tun" 438;
       setcap_daemon; Printf msg].
Proof.
  exact (synology_success [] sample_dsm7 eq_refl).
Defined.

(** ** Arguments that Listen rejects *)

(** X20: arguments that do not lead to a key are rejected before the
    server is started: [Listen] returns the error, the server is as it
    was and nothing has happened.  This is so for a network name other
    than the seven supported ones, and for a network name ending in 4
    (in 6) with a host that is not an IPv4 (IPv6) address. *)
Theorem Listen_rejects_before_Start :
  forall `{net : Net} (s : Server) (env : StartEnv) (name addr : string),
    (forall e, listen_key name addr = Err e ->
               Listen s env name addr = (s, Err e, []))
    /\ (name ∉ supported_networks ->
        listen_key name addr = Err "unsupported network type")
    /\ (forall h portStr a,
          SplitHostPort addr = Val (h, portStr) ->
          h <> "" -> ParseAddr h = Val a ->
          (HasSuffix name "4" = true /\ netip.Is4 a = false)
          \/ (HasSuffix name "6" = true /\ netip.Is6 a = false) ->
          exists e, listen_key name addr = Err e).
Proof.
  intros net s env name addr. split; [| split].
  - intros e He. unfold Listen. by rewrite He.
  - intros Hn. unfold listen_key.
    by rewrite (bool_decide_eq_false_2 _ Hn).
  - intros h portStr a Hs Hh Hp Hfam. unfold listen_key.
    destruct (bool_decide (name ∈ supported_networks)); simpl; [| eauto].
    rewrite Hs. destruct (LookupPort name portStr) as [p | e]; [| eauto].
    destruct ((p <? 0)%Z || (p >? MaxUint16)%Z); [eauto |].
    unfold bindHost.
    destruct (String.eqb_spec h "") as [-> | _]; [done |].
    rewrite Hp.
    destruct Hfam as [[-> ->] | [H6 ->]]; simpl; [eauto |].
    rewrite H6. destruct (HasSuffix name "4" && negb (netip.Is4 a)); eauto.
Qed.
